(** * FishExecutor: the pacing wrapper around a ><> program

  A shallow embedding of [src/lib/FishExecutor.js].  The executor owns a
  [FishProgram], accumulates its output, and drives it either one step per
  timer tick or in bursts of [_FULL_SPEED_ADVANCES] steps.

  Conventions of the embedding:
  - JavaScript numbers are IEEE 754 binary64 values, taken from the
    standard library's [spec_float];
  - a method is a computation in the monad [M]: it threads the executor
    object and the host (timers, call log) and completes normally or
    abruptly (a thrown error);
  - calls that leave the executor (program methods that change the program,
    [setTimeout], [clearTimeout], advance listeners) are recorded, in
    order, in the log of the world;
  - the advance listeners are code of the client: [run_live] calls them as
    they come (a listener may throw, or call back into the executor while
    the list is traversed), and [run] is the same method for listeners that
    return and leave the executor alone. *)

From Stdlib Require Import ZArith List String Ascii Bool Lia.
From Stdlib Require Import SpecFloat.
Import ListNotations.

Local Open Scope string_scope.
Local Open Scope list_scope.

(** ** JavaScript values *)

Module JS.

(** Numbers: binary64, [prec = 53] and [emax = 1024]. *)
Definition number : Type := spec_float.

Definition prec : Z := 53.
Definition emax : Z := 1024.

Definition NaN : number := S754_nan.
Definition pos_zero : number := S754_zero false.
Definition neg_zero : number := S754_zero true.
Definition neg_infinity : number := S754_infinity true.

(** The number denoted by an integer literal. *)
Definition of_Z (z : Z) : number := binary_normalize prec emax z 0 false.

Definition is_NaN (n : number) : bool :=
  match n with S754_nan => true | _ => false end.

Definition is_pos_zero (n : number) : bool :=
  match n with S754_zero false => true | _ => false end.

Definition is_neg_zero (n : number) : bool :=
  match n with S754_zero true => true | _ => false end.

(** Values.  A string is a sequence of code units, one [ascii] each.  An
object (an array and a function are objects) is known by its reference.
Symbols and BigInts are left out. *)
Inductive value : Type :=
| undefined
| null
| boolean (b : bool)
| num (n : number)
| str (s : string)
| object (ref : nat).

(** Two conversions are parameters of the development: the number a string
denotes (StringToNumber of the language standard), and the number an object
converts to, for objects whose conversion ([valueOf], [toString]) returns
and leaves the executor alone. *)
Class Runtime : Type :=
  { StringToNumber : string -> number;
    ObjectToNumber : nat -> number }.

(** [ToNumber], the conversion behind [Number(v)] and [Math.max]. *)
Definition ToNumber `{Runtime} (v : value) : number :=
  match v with
  | undefined => NaN
  | null => pos_zero
  | boolean true => of_Z 1
  | boolean false => pos_zero
  | num n => n
    | str s => StringToNumber s
  | object ref => ObjectToNumber ref
  end.

(** [Number(v)] called as a function. *)
Definition Number `{Runtime} (v : value) : value := num (ToNumber v).

(** [a === b]: values of different types are never equal; numbers compare
numerically, so [NaN] differs from itself and the two zeros are equal;
objects are equal when they are the same object. *)
Definition strict_equals (a b : value) : bool :=
  match a, b with
  | undefined, undefined => true
  | null, null => true
  | boolean x, boolean y => Bool.eqb x y
  | num x, num y => SFeqb x y
    | str x, str y => String.eqb x y
  | object x, object y => Nat.eqb x y
  | _, _ => false
  end.

(** [Math.max]: start from minus infinity; a [NaN] argument gives [NaN];
[+0] counts as larger than [-0]. *)
Fixpoint max_from (highest : number) (coerced : list number) : number :=
  match coerced with
  | [] => highest
  | n :: rest =>
      if is_NaN n then NaN
      else
        let highest :=
          if is_pos_zero n && is_neg_zero highest then pos_zero else highest in
        let highest := if SFltb highest n then n else highest in
        max_from highest rest
  end.

Definition Math_max `{Runtime} (args : list value) : number :=
  max_from neg_infinity (map ToNumber args).

(** [xs.indexOf(x)] for an array whose elements are compared with the
decidable equality [eqb]; [-1] when [x] does not occur. *)
Fixpoint indexOf_from {A : Type} (eqb : A -> A -> bool) (x : A)
         (xs : list A) (k : Z) : Z :=
  match xs with
  | [] => (-1)%Z
  | y :: ys => if eqb y x then k else indexOf_from eqb x ys (k + 1)%Z
  end.

Definition indexOf {A : Type} (eqb : A -> A -> bool) (x : A) (xs : list A) : Z :=
  indexOf_from eqb x xs 0%Z.

(** [xs.splice(start, deleteCount)] with no inserted items: the array that
remains.  A negative [start] counts from the end; both arguments are
clamped to the array. *)
Definition splice {A : Type} (start deleteCount : Z) (xs : list A) : list A :=
  let len := Z.of_nat (List.length xs) in
  let from := if (start <? 0)%Z then Z.max (len + start) 0 else Z.min start len in
  let count := Z.min (Z.max deleteCount 0) (len - from) in
  firstn (Z.to_nat from) xs ++ skipn (Z.to_nat (from + count)) xs.

End JS.

(** ** Errors and completions *)

(** The error kinds of the program's interface (spec, section 7). *)
Inductive Error : Type :=
| StackUnderflowError
| DivisionByZeroError
| InvalidInstructionError
| InputExhaustedError
| InvalidInputError
| NoOutputAvailable.

(** How a call ends: with a value, or by throwing. *)
Inductive Completion (A : Type) : Type :=
| Normal (a : A)
| Throw (err : Error).

Arguments Normal {A} a.
Arguments Throw {A} err.

Definition throws {A : Type} (c : Completion A) : bool :=
  match c with Normal _ => false | Throw _ => true end.

(** ** The program behind the executor *)

Module FishProgram.

Inductive Direction : Type := UP | DOWN | LEFT | RIGHT.

Record InstructionPointer : Type :=
  { x : Z; y : Z; direction : Direction }.

(** Modelled from the spec: the class [FishProgram] ([lib/FishProgram.js],
required by the executor, is not among the sources).  The interface is
the one of section 6: construction from a source text and an optional
initial stack; [advance()], one instruction cycle, no return value (an
error of the instruction becomes the terminal condition of the program,
section 7: [advance()] does not throw); [readOutput()], which returns what
was produced since the last read and fails when there is nothing;
[giveInput(c)], which may fail; and the read-only observers.
[new_FishProgram source None] is the call with [initialStack] left out. *)
Class API (Program : Type) : Type :=
  { new_FishProgram : string -> option (list JS.number) -> Program;
    advance : Program -> Program;
    readOutput : Program -> Completion string * Program;
    giveInput : JS.value -> Program -> Completion unit * Program;
    hasTerminated : Program -> bool;
    instructionPointer : Program -> InstructionPointer;
    inputBuffer : Program -> list string;
    stack_snapshot : Program -> list JS.number }.

End FishProgram.

(** ** A program built from the words of the spec *)

Module SpecProgram.

Import FishProgram.

(** Modelled from the spec: the state of a program (section 3): the grid
(the rows of the source text), the instruction pointer, the stack
(bottom first), the string-mode flag, the two buffers of the I/O
channel, and the terminal state with the error that caused it, if
any. *)
Record t : Type :=
  { grid : list string;
    ip : InstructionPointer;
    stack : list JS.number;
    stringMode : bool;
    input : list string;
    output : string;
    terminated : bool;
    error : option Error }.

Definition newline : ascii := ascii_of_nat 10.
Definition blank : ascii := " "%char.
Definition quote : ascii := ascii_of_nat 34.

(** The rows of a source text. *)
Fixpoint rows (source : string) : list string :=
  match source with
  | EmptyString => [EmptyString]
  | String c rest =>
      if Ascii.eqb c newline then EmptyString :: rows rest
      else match rows rest with
           | [] => [String c EmptyString]
           | r :: rs => String c r :: rs
           end
  end.

Definition height (g : list string) : Z := Z.of_nat (List.length g).

Definition width (g : list string) : Z :=
  fold_right (fun r w => Z.max (Z.of_nat (String.length r)) w) 0%Z g.

(** [charAt] never fails: a cell that is not stored reads as a blank. *)
Definition charAt (g : list string) (cx cy : Z) : ascii :=
  if ((cx <? 0) || (cy <? 0))%Z then blank
  else match nth_error g (Z.to_nat cy) with
       | None => blank
       | Some r => match String.get (Z.to_nat cx) r with
                   | None => blank
                   | Some c => c
                   end
       end.

(** Modelled from the spec: construction (section 6). *)
Definition create (source : string) (initialStack : option (list JS.number)) : t :=
  {| grid := rows source;
     ip := {| x := 0; y := 0; direction := RIGHT |};
     stack := match initialStack with Some s => s | None => [] end;
     stringMode := false;
     input := [];
     output := EmptyString;
     terminated := false;
     error := None |}.

(** [move()]: one cell in the current direction, wrapping on each axis. *)
Definition move (g : list string) (p : InstructionPointer) : InstructionPointer :=
  let '(dx, dy) :=
    match direction p with
    | UP => (0, -1) | DOWN => (0, 1) | LEFT => (-1, 0) | RIGHT => (1, 0)
    end%Z in
  {| x := (x p + dx) mod width g;
     y := (y p + dy) mod height g;
     direction := direction p |}.

Definition push (v : JS.number) (p : t) : t :=
  {| grid := grid p; ip := ip p; stack := stack p ++ [v];
     stringMode := stringMode p; input := input p; output := output p;
     terminated := terminated p; error := error p |}.

Definition set_stringMode (b : bool) (p : t) : t :=
  {| grid := grid p; ip := ip p; stack := stack p;
     stringMode := b; input := input p; output := output p;
     terminated := terminated p; error := error p |}.

Definition moved (p : t) : t :=
  {| grid := grid p; ip := move (grid p) (ip p); stack := stack p;
     stringMode := stringMode p; input := input p; output := output p;
     terminated := terminated p; error := error p |}.

Definition terminate (e : option Error) (p : t) : t :=
  {| grid := grid p; ip := ip p; stack := stack p;
     stringMode := stringMode p; input := input p; output := output p;
     terminated := true; error := e |}.

(** The value of a literal digit or hex digit. *)
Definition literal (c : ascii) : option Z :=
  let n := Z.of_nat (nat_of_ascii c) in
  if ((48 <=? n) && (n <=? 57))%Z then Some (n - 48)%Z
  else if ((97 <=? n) && (n <=? 102))%Z then Some (n - 87)%Z
  else None.

(** Modelled from the spec: one instruction cycle (section 4.4).  Of the
instruction table the rows embedded are the literals, the blank, the
string-mode quote and the halt; a cell of any other row ends the
program as the table's last row does, so a source that uses the rows
left out is outside this model. *)
Definition cycle (p : t) : t :=
  let c := charAt (grid p) (x (ip p)) (y (ip p)) in
  if stringMode p then
    if Ascii.eqb c quote then moved (set_stringMode false p)
    else moved (push (JS.of_Z (Z.of_nat (nat_of_ascii c))) p)
  else if Ascii.eqb c ";"%char then terminate None p
  else if Ascii.eqb c blank then moved p
  else if Ascii.eqb c quote then moved (set_stringMode true p)
  else match literal c with
       | Some n => moved (push (JS.of_Z n) p)
       | None => terminate (Some InvalidInstructionError) p
       end.

(** [advance()]: a no-op once the program has terminated. *)
Definition step (p : t) : t := if terminated p then p else cycle p.

(** Modelled from the spec: [readOutput()] returns and clears what was
appended since the last call and fails with [NoOutputAvailable] when
nothing was (section 6). *)
Definition read (p : t) : Completion string * t :=
  match output p with
  | EmptyString => (Throw NoOutputAvailable, p)
  | o =>
      (Normal o,
       {| grid := grid p; ip := ip p; stack := stack p;
          stringMode := stringMode p; input := input p; output := EmptyString;
          terminated := terminated p; error := error p |})
  end.

(** Modelled from the spec: [giveInput(c)] enqueues one character and
fails with [InvalidInputError] if [c] is not exactly one character
(section 6); a failed call does not affect the program (section 7). *)
Definition give (c : JS.value) (p : t) : Completion unit * t :=
  match c with
  | JS.str (String a EmptyString) =>
      (Normal tt,
       {| grid := grid p; ip := ip p; stack := stack p;
          stringMode := stringMode p;
          input := input p ++ [String a EmptyString];
          output := output p;
          terminated := terminated p; error := error p |})
  | _ => (Throw InvalidInputError, p)
  end.

#[global] Instance api : API t :=
  {| new_FishProgram := create;
     advance := step;
     readOutput := read;
     giveInput := give;
     hasTerminated := terminated;
     instructionPointer := ip;
     inputBuffer := input;
     stack_snapshot := stack |}.

End SpecProgram.


(** ** The executor *)

Module FishExecutor.

(** A listener is a function supplied by the client; the executor only
stores it, compares it by identity ([indexOf]) and calls it.  A timer
handle is what [setTimeout] returns; [null] is [None]. *)
Definition Listener : Type := nat.
Definition TimerId : Type := nat.

Section Executor.

Context {Program : Type} `{FishProgram.API Program} `{JS.Runtime}.

(** The fields set by the constructor. *)
Record t : Type :=
  { _program : Program;
    _output : string;
    _isPaused : bool;
    _hasStarted : bool;
    _intervalTime : JS.number;
    _timeout : option TimerId;
    _advanceListeners : list Listener }.

(** Calls that leave the executor.  A listener is called with the
executor as its one argument; the event keeps the executor as the listener
sees it. *)
Inductive Event : Type :=
| ProgramAdvance
| ProgramReadOutput
| ProgramGiveInput (c : JS.value)
| SetTimeout (id : TimerId) (ms : JS.number)
| ClearTimeout (handle : option TimerId)
| ListenerCall (func : Listener) (arg : t).

(** The executor object together with the host: the timers that are armed
(handle and delay), the next fresh handle, and the log of calls. *)
Record World : Type :=
  { this : t;
    timers : list (TimerId * JS.number);
    next_timer : TimerId;
    log : list Event }.

(** *** Field assignment *)

Definition with_program (p : Program) (e : t) : t :=
  {| _program := p; _output := _output e; _isPaused := _isPaused e;
     _hasStarted := _hasStarted e; _intervalTime := _intervalTime e;
     _timeout := _timeout e; _advanceListeners := _advanceListeners e |}.

Definition with_output (o : string) (e : t) : t :=
  {| _program := _program e; _output := o; _isPaused := _isPaused e;
     _hasStarted := _hasStarted e; _intervalTime := _intervalTime e;
     _timeout := _timeout e; _advanceListeners := _advanceListeners e |}.

Definition with_isPaused (b : bool) (e : t) : t :=
  {| _program := _program e; _output := _output e; _isPaused := b;
     _hasStarted := _hasStarted e; _intervalTime := _intervalTime e;
     _timeout := _timeout e; _advanceListeners := _advanceListeners e |}.

Definition with_hasStarted (b : bool) (e : t) : t :=
  {| _program := _program e; _output := _output e; _isPaused := _isPaused e;
     _hasStarted := b; _intervalTime := _intervalTime e;
     _timeout := _timeout e; _advanceListeners := _advanceListeners e |}.

Definition with_intervalTime (n : JS.number) (e : t) : t :=
  {| _program := _program e; _output := _output e; _isPaused := _isPaused e;
     _hasStarted := _hasStarted e; _intervalTime := n;
     _timeout := _timeout e; _advanceListeners := _advanceListeners e |}.

Definition with_timeout (h : option TimerId) (e : t) : t :=
  {| _program := _program e; _output := _output e; _isPaused := _isPaused e;
     _hasStarted := _hasStarted e; _intervalTime := _intervalTime e;
     _timeout := h; _advanceListeners := _advanceListeners e |}.

Definition with_advanceListeners (l : list Listener) (e : t) : t :=
  {| _program := _program e; _output := _output e; _isPaused := _isPaused e;
     _hasStarted := _hasStarted e; _intervalTime := _intervalTime e;
     _timeout := _timeout e; _advanceListeners := l |}.

Definition with_this (e : t) (w : World) : World :=
  {| this := e; timers := timers w; next_timer := next_timer w; log := log w |}.

Definition logged (ev : Event) (w : World) : World :=
  {| this := this w; timers := timers w; next_timer := next_timer w;
     log := log w ++ [ev] |}.

(** *** The monad of methods *)

Definition M (A : Type) : Type := World -> Completion A * World.

Definition ret {A : Type} (a : A) : M A := fun w => (Normal a, w).

Definition bind {A B : Type} (m : M A) (k : A -> M B) : M B :=
  fun w =>
    match m w with
    | (Normal a, w') => k a w'
    | (Throw err, w') => (Throw err, w')
    end.

(** [try { body } catch (err) { handler }] *)
Definition try_catch {A : Type} (body : M A) (handler : Error -> M A) : M A :=
  fun w =>
    match body w with
    | (Normal a, w') => (Normal a, w')
    | (Throw err, w') => handler err w'
    end.

(** Reading a field of [this], and assigning to [this]. *)
Definition field {A : Type} (f : t -> A) : M A := fun w => (Normal (f (this w)), w).

Definition assign (f : t -> t) : M unit :=
  fun w => (Normal tt, with_this (f (this w)) w).

Definition emit (ev : Event) : M unit := fun w => (Normal tt, logged ev w).

(** [a || b] on conditions that are evaluated: [b] only if [a] is false. *)
Definition or_else (a b : M bool) : M bool :=
  bind a (fun x => if x then ret true else b).

(** The world a computation leaves, and how it completes. *)
Definition exec {A : Type} (m : M A) (w : World) : World := snd (m w).

Definition result {A : Type} (m : M A) (w : World) : Completion A := fst (m w).

End Executor.

Arguments t Program : clear implicits.
Arguments Event Program : clear implicits.
Arguments World Program : clear implicits.
Arguments M Program A : clear implicits.

Declare Scope method_scope.
Delimit Scope method_scope with method.

Notation "x <- c1 ;; c2" := (bind c1 (fun x => c2))
  (at level 61, c1 at next level, right associativity) : method_scope.
Notation "c1 ;; c2" := (bind c1 (fun _ => c2))
  (at level 61, right associativity) : method_scope.
Notation "a ||| b" := (or_else a b)
  (at level 50, left associativity) : method_scope.

Local Open Scope method_scope.

Section Methods.

Context {Program : Type} `{FishProgram.API Program} `{JS.Runtime}.

#[local] Abbreviation M := (M Program).

(** *** Calls into the program and the host *)

(** [this._program.advance()] *)
Definition program_advance : M unit :=
  emit ProgramAdvance ;;
  assign (fun e => with_program (FishProgram.advance (_program e)) e).

(** [this._program.readOutput()]: the program changes whether the call
returns or throws. *)
Definition program_readOutput : M string :=
  emit ProgramReadOutput ;;
  fun w =>
    let '(c, p) := FishProgram.readOutput (_program (this w)) in
    (c, with_this (with_program p (this w)) w).

(** [this._program.giveInput(c)] *)
Definition program_giveInput (c : JS.value) : M unit :=
  emit (ProgramGiveInput c) ;;
  fun w =>
    let '(r, p) := FishProgram.giveInput c (_program (this w)) in
    (r, with_this (with_program p (this w)) w).

(** [setTimeout(callback, ms)]: arms a timer under a fresh handle and
returns the handle.  The executor passes one callback only, [timeout_callback]
below, so the timer table does not store it. *)
Definition setTimeout (ms : JS.number) : M TimerId :=
  fun w =>
    let id := next_timer w in
    (Normal id,
     {| this := this w;
        timers := timers w ++ [(id, ms)];
        next_timer := S id;
        log := log w ++ [SetTimeout id ms] |}).

(** [clearTimeout(handle)]: disarms the timer if it is armed; [null], or the
handle of a timer that has fired, is ignored. *)
Definition disarm (id : TimerId) (ts : list (TimerId * JS.number)) :
  list (TimerId * JS.number) :=
  filter (fun entry => negb (Nat.eqb (fst entry) id)) ts.

Definition clearTimeout (handle : option TimerId) : M unit :=
  fun w =>
    (Normal tt,
     {| this := this w;
        timers := match handle with
                  | Some id => disarm id (timers w)
                  | None => timers w
                  end;
        next_timer := next_timer w;
        log := log w ++ [ClearTimeout handle] |}).

(** [func(this)] for a listener that returns normally and leaves the
executor as it is, as section 5 of the spec asks of a callback: the call is
recorded with its argument.  The call of any listener, one that throws or
calls back into the executor included, is [call_live] below; the lemma
[run_live_quiet] shows that [run] is [run_live] when the listeners are of
the first kind. *)
Definition call (func : Listener) : M unit :=
  fun w => (Normal tt, logged (ListenerCall func (this w)) w).

(** [array.forEach(f)] for an array that does not change while it is
traversed; [forEach_live] below reads the array at every step. *)
Fixpoint forEach {A : Type} (array : list A) (f : A -> M unit) : M unit :=
  match array with
  | [] => ret tt
  | a :: rest => f a ;; forEach rest f
  end.

(** *** The class *)

(** [constructor(source, initialStack)] *)
Definition new_FishExecutor (source : string)
           (initialStack : option (list JS.number)) : t Program :=
  {| _program := FishProgram.new_FishProgram source initialStack;
     _output := EmptyString;
     _isPaused := false;
     _hasStarted := false;
     _intervalTime := JS.of_Z 100;
     _timeout := None;
     _advanceListeners := [] |}.

(** [onAdvance(func)] *)
Definition onAdvance (func : Listener) : M unit :=
  assign (fun e => with_advanceListeners (_advanceListeners e ++ [func]) e).

(** [offAdvance(func)] *)
Definition offAdvance (func : Listener) : M unit :=
  listeners <- field _advanceListeners ;;
  let i := JS.indexOf Nat.eqb func listeners in
  if (0 <=? i)%Z
  then assign (fun e => with_advanceListeners (JS.splice i 1 (_advanceListeners e)) e)
  else ret tt.

(** [get instructionPointer()] *)
Definition instructionPointer : M FishProgram.InstructionPointer :=
  field (fun e => FishProgram.instructionPointer (_program e)).

(** [get inputBuffer()] *)
Definition inputBuffer : M (list string) :=
  field (fun e => FishProgram.inputBuffer (_program e)).

(** [giveInput(c)] *)
Definition giveInput (c : JS.value) : M unit := program_giveInput c.

(** [get stackSnapshot()] *)
Definition stackSnapshot : M (list JS.number) :=
  field (fun e => FishProgram.stack_snapshot (_program e)).

(** [get intervalTime()] *)
Definition intervalTime : M JS.number := field _intervalTime.

(** [get hasStarted()] *)
Definition hasStarted : M bool := field _hasStarted.

(** [pause()] *)
Definition pause : M unit := assign (with_isPaused true).

(** [_clearTimeout()] *)
Definition _clearTimeout : M unit :=
  handle <- field _timeout ;;
  clearTimeout handle ;;
  assign (with_timeout None).

(** [_setTimeout(ms)]; the callback it arms is [timeout_callback]. *)
Definition _setTimeout (ms : JS.number) : M unit :=
  handle <- setTimeout ms ;;
  assign (with_timeout (Some handle)).

(** [get isPaused()] *)
Definition isPaused : M bool := field _isPaused.

(** [get hasTerminated()] *)
Definition hasTerminated : M bool :=
  field (fun e => FishProgram.hasTerminated (_program e)).

(** [_advance()] *)
Definition _advance : M unit :=
  program_advance ;;
  try_catch
    (o <- program_readOutput ;;
     assign (fun e => with_output (String.append (_output e) o) e))
    (fun _ => ret tt).

(** [static get _FULL_SPEED_ADVANCES()] *)
Definition _FULL_SPEED_ADVANCES : Z := 10000.

(** [_runAtInterval()] *)
Definition _runAtInterval : M unit :=
  _advance ;;
  ms <- field _intervalTime ;;
  _setTimeout ms.

(** The loop of [_runAtFullSpeed]:
[while (!this.hasTerminated && advances < _FULL_SPEED_ADVANCES)].
It returns the final value of [advances].  [fuel] bounds the number of
iterations; [full_speed_fuel] iterations are always enough (lemma
[while_advancing_fuel]). *)
Fixpoint while_advancing (fuel : nat) (advances : Z) : M Z :=
  match fuel with
  | O => ret advances
  | S fuel' =>
      terminated <- hasTerminated ;;
      if negb terminated && (advances <? _FULL_SPEED_ADVANCES)%Z
      then _advance ;; while_advancing fuel' (advances + 1)%Z
      else ret advances
  end.

Definition full_speed_fuel : nat := Z.to_nat _FULL_SPEED_ADVANCES.

(** [_runAtFullSpeed()] *)
Definition _runAtFullSpeed : M unit :=
  while_advancing full_speed_fuel 0%Z ;;
  _setTimeout (JS.of_Z 0).

(** The entry guard of [run]:
[this.isPaused || this.hasTerminated || this._timeout !== null]. *)
Definition run_guard : M bool :=
  isPaused ||| hasTerminated
  ||| (handle <- field _timeout ;;
       ret (match handle with Some _ => true | None => false end)).

(** [run()] *)
Definition run : M unit :=
  assign (with_hasStarted true) ;;
  rejected <- run_guard ;;
  if rejected then ret tt
  else
    ms <- field _intervalTime ;;
    (if JS.strict_equals (JS.num ms) (JS.num (JS.of_Z 0))
     then _runAtFullSpeed
     else _runAtInterval) ;;
    listeners <- field _advanceListeners ;;
    forEach listeners call.

(** [set intervalTime(newTime)] *)
Definition set_intervalTime (newTime : JS.value) : M unit :=
  if JS.strict_equals (JS.Number newTime) newTime
  then
    assign (with_intervalTime (JS.Math_max [newTime; JS.num (JS.of_Z 0)])) ;;
    _clearTimeout ;;
    started <- field _hasStarted ;;
    if started then run else ret tt
  else ret tt.

(** [resume()] *)
Definition resume : M unit :=
  assign (with_isPaused false) ;;
  run.

(** [get program()] *)
Definition program : M Program := field _program.

(** [get output()] *)
Definition output : M string := field _output.

(** The callback armed by [_setTimeout]: [_clearTimeout(); run()]. *)
Definition timeout_callback : M unit :=
  _clearTimeout ;;
  run.

(** The host fires the timer [id]: if it is armed, it leaves the timer
table and its callback runs. *)
Definition timer_fires (id : TimerId) : M unit :=
  fun w =>
    if existsb (fun entry => Nat.eqb (fst entry) id) (timers w)
    then timeout_callback
           {| this := this w; timers := disarm id (timers w);
              next_timer := next_timer w; log := log w |}
    else (Normal tt, w).

End Methods.

(** *** The public operations as a transition system *)

Inductive Getter : Type :=
| get_instructionPointer
| get_inputBuffer
| get_stackSnapshot
| get_intervalTime
| get_hasStarted
| get_isPaused
| get_hasTerminated
| get_program
| get_output.

(** What a client, or the host through a timer, can do to an executor. *)
Inductive Operation : Type :=
| OnAdvance (func : Listener)
| OffAdvance (func : Listener)
| Get (g : Getter)
| GiveInput (c : JS.value)
| SetIntervalTime (newTime : JS.value)
| Pause
| Resume
| Run
| TimerFires (id : TimerId).

Section Transitions.

Context {Program : Type} `{FishProgram.API Program} `{JS.Runtime}.

#[local] Abbreviation World := (World Program).

Definition evaluate (g : Getter) (w : World) : World :=
  match g with
  | get_instructionPointer => exec instructionPointer w
  | get_inputBuffer => exec inputBuffer w
  | get_stackSnapshot => exec stackSnapshot w
  | get_intervalTime => exec intervalTime w
  | get_hasStarted => exec hasStarted w
  | get_isPaused => exec isPaused w
  | get_hasTerminated => exec hasTerminated w
  | get_program => exec program w
  | get_output => exec output w
  end.

Definition perform (op : Operation) (w : World) : World :=
  match op with
  | OnAdvance func => exec (onAdvance func) w
  | OffAdvance func => exec (offAdvance func) w
  | Get g => evaluate g w
  | GiveInput c => exec (giveInput c) w
  | SetIntervalTime newTime => exec (set_intervalTime newTime) w
  | Pause => exec pause w
  | Resume => exec resume w
  | Run => exec run w
  | TimerFires id => exec (timer_fires id) w
  end.

(** A sequence of operations, performed from left to right. *)
Definition perform_all (ops : list Operation) (w : World) : World :=
  fold_left (fun w' op => perform op w') ops w.

(** A world in which an executor has just been constructed. *)
Definition fresh (source : string) (initialStack : option (list JS.number))
           (w : World) : Prop :=
  this w = new_FishExecutor source initialStack.

(** The worlds an executor can be in: after construction, then after any
sequence of operations. *)
Inductive reachable : World -> Prop :=
| reachable_new source initialStack w :
    fresh source initialStack w -> reachable w
| reachable_step op w :
    reachable w -> reachable (perform op w).

(** *** Pure readings of the methods, used to state their effect *)

(** The executor after one [_advance()]. *)
Definition advanced (e : t Program) : t Program :=
  let p := FishProgram.advance (_program e) in
  match FishProgram.readOutput p with
  | (Normal o, p') => with_output (String.append (_output e) o) (with_program p' e)
  | (Throw _, p') => with_program p' e
  end.

(** The number of iterations the loop of [_runAtFullSpeed] makes from the
executor [e] with the counter at [advances]. *)
Fixpoint burst (fuel : nat) (advances : Z) (e : t Program) : nat :=
  match fuel with
  | O => O
  | S fuel' =>
      if negb (FishProgram.hasTerminated (_program e))
         && (advances <? _FULL_SPEED_ADVANCES)%Z
      then S (burst fuel' (advances + 1)%Z (advanced e))
      else O
  end.

(** The condition under which [run] returns at its guard. *)
Definition guard_rejects (e : t Program) : bool :=
  _isPaused e
  || FishProgram.hasTerminated (_program e)
  || match _timeout e with Some _ => true | None => false end.

(** The events logged between two worlds. *)
Definition new_events (before after : World) : list (Event Program) :=
  skipn (List.length (log before)) (log after).

Definition is_advance (ev : Event Program) : bool :=
  match ev with ProgramAdvance => true | _ => false end.

Definition is_timer_event (ev : Event Program) : bool :=
  match ev with SetTimeout _ _ | ClearTimeout _ => true | _ => false end.

(** How many times [advance()] was called. *)
Definition advances_in (evs : list (Event Program)) : nat :=
  List.length (filter is_advance evs).

(** The listener calls, in order: the function and its argument. *)
Definition listener_calls (evs : list (Event Program)) :
  list (Listener * t Program) :=
  flat_map (fun ev => match ev with
                      | ListenerCall func arg => [(func, arg)]
                      | _ => []
                      end) evs.

(** The events of [n] calls of [_advance()]. *)
Fixpoint advance_events (n : nat) : list (Event Program) :=
  match n with
  | O => []
  | S n' => ProgramAdvance :: ProgramReadOutput :: advance_events n'
  end.

(** The executor after [n] calls of [_advance()]. *)
Fixpoint advanced_by (n : nat) (e : t Program) : t Program :=
  match n with
  | O => e
  | S n' => advanced_by n' (advanced e)
  end.

(** The world after [run()], read off the method: the flag is set; if the
guard rejects, nothing else happens; otherwise the program is advanced (once,
or in a burst when the interval is zero), the next run is scheduled under a
fresh handle, and the listeners are called. *)
Definition ran (w : World) : World :=
  let e := with_hasStarted true (this w) in
  if guard_rejects e then with_this e w
  else
    let ms := _intervalTime e in
    let full_speed := JS.strict_equals (JS.num ms) (JS.num (JS.of_Z 0)) in
    let n := if full_speed then burst full_speed_fuel 0%Z e else 1%nat in
    let delay := if full_speed then JS.of_Z 0 else ms in
    let handle := next_timer w in
    let e' := with_timeout (Some handle) (advanced_by n e) in
    {| this := e';
       timers := timers w ++ [(handle, delay)];
       next_timer := S handle;
       log := log w ++ advance_events n ++ [SetTimeout handle delay]
                ++ map (fun func => ListenerCall func e') (_advanceListeners e') |}.

(** Comparisons of numbers: [n >= 0], [n < 0], [n > 0]. *)
Definition at_least_zero (n : JS.number) : Prop := SFleb JS.pos_zero n = true.
Definition below_zero (n : JS.number) : Prop := SFltb n JS.pos_zero = true.
Definition above_zero (n : JS.number) : Prop := SFltb JS.pos_zero n = true.

(** [c] is a string of exactly one character. *)
Definition one_character (c : JS.value) : bool :=
  match c with
  | JS.str s => Nat.eqb (String.length s) 1
  | _ => false
  end.

(** The client reaches the program through the getter [program] and steps
it: [executor.program.advance()]. *)
Definition client_advances_program (w : World) : World :=
  with_this (with_program (FishProgram.advance (_program (this w))) (this w)) w.

(** A host with no timer armed and nothing logged. *)
Definition boot (e : t Program) : World :=
  {| this := e; timers := []; next_timer := 1; log := [] |}.

End Transitions.

(** *** Concrete executors, over the program of the spec *)

(** A runtime in which no string and no object denotes a number.  The
examples convert neither. *)
Definition example_runtime : JS.Runtime :=
  {| JS.StringToNumber := fun _ => JS.NaN;
     JS.ObjectToNumber := fun _ => JS.NaN |}.

(** [e = new FishExecutor(";")] after the client stepped the program
through the getter, [e.program.advance()]: the program has halted and the
executor has not been started. *)
Definition halted_unstarted : World SpecProgram.t :=
  client_advances_program (boot (new_FishExecutor ";" None)).

(** [e = new FishExecutor("12;")] after [e.pause()]. *)
Definition paused_fresh : World SpecProgram.t :=
  exec pause (boot (new_FishExecutor "12;" None)).

(** [e = new FishExecutor("12;")] with the listeners [7] and [9]
registered, in this order. *)
Definition listening : World SpecProgram.t :=
  exec (onAdvance 9) (exec (onAdvance 7) (boot (new_FishExecutor "12;" None))).

(** [e = new FishExecutor("12;")] after [e.intervalTime = 0]: it will run
at full speed. *)
Definition full_speed_fresh : World SpecProgram.t :=
  exec (@set_intervalTime _ _ example_runtime (JS.num (JS.of_Z 0)))
       (boot (new_FishExecutor "12;" None)).

(** *** Further readings, for the properties of the operations *)

Section Readings.

Context {Program : Type} `{FishProgram.API Program}.

(** How many times [setTimeout] was called. *)
Definition timeouts_set_in (evs : list (Event Program)) : nat :=
  List.length
    (filter (fun ev => match ev with SetTimeout _ _ => true | _ => false end) evs).

(** The timers armed on the host are the executor's pending timeout and
nothing else: none when [_timeout] is [null], and otherwise the one timer
whose handle [_timeout] holds. *)
Definition single_timer (w : World Program) : Prop :=
  match _timeout (this w) with
  | None => timers w = []
  | Some id => exists ms, timers w = [(id, ms)]
  end.

(** The program after [n] rounds of [advance()] followed by [readOutput()],
and the strings these reads returned, concatenated in order. *)
Fixpoint stepped (n : nat) (p : Program) : Program :=
  match n with
  | O => p
  | S n' => stepped n' (snd (FishProgram.readOutput (FishProgram.advance p)))
  end.

Fixpoint drained (n : nat) (p : Program) : string :=
  match n with
  | O => EmptyString
  | S n' =>
      match FishProgram.readOutput (FishProgram.advance p) with
      | (Normal o, p') => String.append o (drained n' p')
      | (Throw _, p') => drained n' p'
      end
  end.

(** The listener list without the first registration of [func]. *)
Fixpoint without_first (func : Listener) (l : list Listener) : list Listener :=
  match l with
  | [] => []
  | g :: rest => if Nat.eqb g func then rest else g :: without_first func rest
  end.

End Readings.

(** [listening] after [run()]: one step made, a timer pending. *)
Definition running : World SpecProgram.t := exec run listening.

(** [running] after [pause()]. *)
Definition paused_running : World SpecProgram.t := exec pause running.

(** [listening] after [onAdvance(7)]: the function [7] is registered
twice, around [9]. *)
Definition twice_registered : World SpecProgram.t :=
  exec (onAdvance 7) listening.

(** *** Listeners as client code *)

(** A scene is a world together with the client: the client's own state,
and the record of the listener calls made so far, each with the function and
the executor it was given.  The record is kept beside the world, out of the
client's reach. *)
Record Scene (Program Client : Type) : Type :=
  { stage : World Program;
    client : Client;
    invoked : list (Listener * t Program) }.

Arguments stage {Program Client} s.
Arguments client {Program Client} s.
Arguments invoked {Program Client} s.

Declare Scope live_scope.
Delimit Scope live_scope with live.

Section Live.

Context {Program Client : Type} `{FishProgram.API Program}.

(** What a call [func(this)] does.  The listener is code of the client: it
may return or throw, change the client's state, and do to the executor
whatever the client can do, calling its methods included ([offAdvance],
[pause], [giveInput], an assignment to [intervalTime], [run] ...).  All of
this is one function from the state before the call to the completion and
the state after it. *)
Variable react :
  Listener -> Client -> World Program -> Completion unit * (Client * World Program).

#[local] Abbreviation Scene := (Scene Program Client).

Definition with_stage (w : World Program) (s : Scene) : Scene :=
  {| stage := w; client := client s; invoked := invoked s |}.

(** Methods over a scene. *)
Definition L (A : Type) : Type := Scene -> Completion A * Scene.

Definition done : L unit := fun s => (Normal tt, s).

Definition and_then {A B : Type} (m : L A) (k : A -> L B) : L B :=
  fun s =>
    match m s with
    | (Normal a, s') => k a s'
    | (Throw err, s') => (Throw err, s')
    end.

(** A method of the executor, run on the stage. *)
Definition on_stage {A : Type} (m : M Program A) : L A :=
  fun s => let '(r, w) := m (stage s) in (r, with_stage w s).

#[local] Notation "x <- c1 ;; c2" := (and_then c1 (fun x => c2))
  (at level 61, c1 at next level, right associativity) : live_scope.
#[local] Notation "c1 ;; c2" := (and_then c1 (fun _ => c2))
  (at level 61, right associativity) : live_scope.

Local Open Scope live_scope.

(** [func(this)]: the call is recorded, in the log of the world and in the
scene, and the listener reacts; its completion is the completion of the
call. *)
Definition call_live (func : Listener) : L unit :=
  fun s =>
    let w := logged (ListenerCall func (this (stage s))) (stage s) in
    let '(r, (c, w')) := react func (client s) w in
    (r, {| stage := w'; client := c;
           invoked := invoked s ++ [(func, this (stage s))] |}).

(** The loop of [this._advanceListeners.forEach(f)]: the indices from [k]
on, [len] of them, where the bound was fixed from the length of the array
when the loop started.  At each index the array is read as it is now: an
index that is no longer in it (the array has shrunk) is skipped, and
elements pushed beyond the bound are not visited.  A call that throws ends
the loop. *)
Fixpoint forEach_from (len : nat) (k : nat) (f : Listener -> L unit) : L unit :=
  match len with
  | O => done
  | S len' =>
      fun s =>
        match nth_error (_advanceListeners (this (stage s))) k with
        | Some func => (f func ;; forEach_from len' (S k) f) s
        | None => forEach_from len' (S k) f s
        end
  end.

Definition forEach_live (f : Listener -> L unit) : L unit :=
  fun s => forEach_from (List.length (_advanceListeners (this (stage s)))) 0 f s.

(** [run()], with its listeners as they come. *)
Definition run_live : L unit :=
  on_stage (assign (with_hasStarted true)) ;;
  rejected <- on_stage run_guard ;;
  if rejected then done
  else
    ms <- on_stage (field _intervalTime) ;;
    on_stage (if JS.strict_equals (JS.num ms) (JS.num (JS.of_Z 0))
              then _runAtFullSpeed
              else _runAtInterval) ;;
    forEach_live call_live.

(** Every listener returns normally and leaves the world as it is. *)
Definition quiet : Prop :=
  forall func c w, exists c', react func c w = (Normal tt, (c', w)).


End Live.

Section Registration.

Context {Program : Type} `{FishProgram.API Program}.

(** [onAdvance(f1); ...; onAdvance(fn)] *)
Definition register (funcs : list Listener) (w : World Program) : World Program :=
  fold_left (fun w' func => exec (onAdvance func) w') funcs w.

(** The world when [run()] has done its own work and is about to call the
listeners: the program advanced [n] times, the timeout scheduled. *)
Definition scheduled (w : World Program) : World Program :=
  let e := with_hasStarted true (this w) in
  let ms := _intervalTime e in
  let full_speed := JS.strict_equals (JS.num ms) (JS.num (JS.of_Z 0)) in
  let n := if full_speed then burst full_speed_fuel 0%Z e else 1%nat in
  let delay := if full_speed then JS.of_Z 0 else ms in
  let handle := next_timer w in
  {| this := with_timeout (Some handle) (advanced_by n e);
     timers := timers w ++ [(handle, delay)];
     next_timer := S handle;
     log := log w ++ advance_events n ++ [SetTimeout handle delay] |}.

End Registration.

(** *** Concrete listeners *)

(** Listeners that do nothing. *)
Definition idle {Program Client : Type} (func : Listener) (c : Client)
           (w : World Program) : Completion unit * (Client * World Program) :=
  (Normal tt, (c, w)).

(** The listener [7] unregisters itself when it is called:
[e => e.offAdvance(listener7)]. *)
Definition one_shot_7 (func : Listener) (c : unit) (w : World SpecProgram.t) :
  Completion unit * (unit * World SpecProgram.t) :=
  (Normal tt, (c, if Nat.eqb func 7 then exec (offAdvance 7) w else w)).

(** The listener [7] gives the program two characters at once and does not
catch the error: [e => e.giveInput("ab")]. *)
Definition bad_input_7 (func : Listener) (c : unit) (w : World SpecProgram.t) :
  Completion unit * (unit * World SpecProgram.t) :=
  if Nat.eqb func 7
  then let '(r, w') := giveInput (JS.str "ab") w in (r, (c, w'))
  else (Normal tt, (c, w)).

(** The listener [7] sets the interval to 50 ms the first time it is
called, [e => { if (!seen) { seen = true; e.intervalTime = 50; } }]; the
client's state is the flag [seen].  The assignment runs the executor again,
from inside the listener; in that inner run the listener [7] has seen the
call already and, like [9], does nothing. *)
Definition speeding_7 (func : Listener) (seen : bool) (w : World SpecProgram.t) :
  Completion unit * (bool * World SpecProgram.t) :=
  if Nat.eqb func 7 && negb seen
  then (Normal tt,
        (true, exec (@set_intervalTime _ _ example_runtime (JS.num (JS.of_Z 50))) w))
  else (Normal tt, (seen, w)).


(** A world with a client that has been called by no one yet. *)
Definition scene {Program Client : Type} (w : World Program) (c : Client) :
  Scene Program Client :=
  {| stage := w; client := c; invoked := [] |}.

(** [e = new FishExecutor("12;"); e.onAdvance(listener7);
e.onAdvance(listener9)] on a fresh host. *)
Definition two_listeners {Client : Type} (c : Client) :
  Scene SpecProgram.t Client :=
  scene (register [7; 9] (boot (new_FishExecutor "12;" None))) c.

(** ** Properties of the executor *)

Section Properties.

Context {Program : Type} `{FishProgram.API Program} `{JS.Runtime}.

#[local] Abbreviation World := (World Program).



Lemma _advance_unfold (w : World) :
  _advance w =
  (Normal tt,
   {| this := advanced (this w); timers := timers w;
      next_timer := next_timer w;
      log := log w ++ [ProgramAdvance; ProgramReadOutput] |}).
Proof.
  unfold _advance, advanced, program_advance, program_readOutput, try_catch,
    bind, emit, assign, ret, logged, with_this; simpl.
  destruct (FishProgram.readOutput (FishProgram.advance (_program (this w))))
    as [[o | err] p'] eqn:E; simpl; rewrite <- app_assoc; reflexivity.
Qed.


(** Fields that [_advance] does not touch. *)
Lemma advanced_frame (e : t Program) :
  _isPaused (advanced e) = _isPaused e /\
  _hasStarted (advanced e) = _hasStarted e /\
  _intervalTime (advanced e) = _intervalTime e /\
  _timeout (advanced e) = _timeout e /\
  _advanceListeners (advanced e) = _advanceListeners e.
Proof.
  unfold advanced.
  destruct (FishProgram.readOutput (FishProgram.advance (_program e)))
    as [[o | err] p']; simpl; repeat split; reflexivity.
Qed.

Lemma advanced_by_frame (n : nat) : forall e : t Program,
  _isPaused (advanced_by n e) = _isPaused e /\
  _hasStarted (advanced_by n e) = _hasStarted e /\
  _intervalTime (advanced_by n e) = _intervalTime e /\
  _timeout (advanced_by n e) = _timeout e /\
  _advanceListeners (advanced_by n e) = _advanceListeners e.
Proof.
  induction n as [| n IH]; intros e; simpl.
  - repeat split; reflexivity.
  - destruct (IH (advanced e)) as (a & b & c & d & f).
    destruct (advanced_frame e) as (a' & b' & c' & d' & f').
    repeat split; congruence.
Qed.

Lemma advanced_output (e : t Program) :
  exists s, _output (advanced e) = String.append (_output e) s.
Proof.
  unfold advanced.
  destruct (FishProgram.readOutput (FishProgram.advance (_program e)))
    as [[o | err] p']; simpl.
  - exists o; reflexivity.
  - exists EmptyString. 
    clear. induction (_output e) as [| c s IH]; simpl; congruence.
Qed.

Lemma append_assoc (a b c : string) :
  String.append (String.append a b) c = String.append a (String.append b c).
Proof. induction a as [| x a IH]; simpl; congruence. Qed.

Lemma append_empty (a : string) : String.append a EmptyString = a.
Proof. induction a as [| x a IH]; simpl; congruence. Qed.

Lemma advanced_by_output (n : nat) : forall e : t Program,
  exists s, _output (advanced_by n e) = String.append (_output e) s.
Proof.
  induction n as [| n IH]; intros e; simpl.
  - exists EmptyString; symmetry; apply append_empty.
  - destruct (IH (advanced e)) as [s Hs].
    destruct (advanced_output e) as [s' Hs'].
    exists (String.append s' s).
    rewrite Hs, Hs'. apply append_assoc.
Qed.

Lemma advanced_by_succ (n : nat) : forall e : t Program,
  advanced_by (S n) e = advanced (advanced_by n e).
Proof.
  induction n as [| n IH]; intros e; [reflexivity |].
  change (advanced_by (S (S n)) e) with (advanced_by (S n) (advanced e)).
  rewrite IH. reflexivity.
Qed.

Lemma while_advancing_unfold (fuel : nat) : forall (advances : Z) (w : World),
  while_advancing fuel advances w =
  let n := burst fuel advances (this w) in
  (Normal (advances + Z.of_nat n)%Z,
   {| this := advanced_by n (this w); timers := timers w;
      next_timer := next_timer w;
      log := log w ++ advance_events n |}).
Proof.
  induction fuel as [| fuel IH]; intros advances w.
  - simpl. unfold ret. rewrite Z.add_0_r, app_nil_r. destruct w; reflexivity.
  - cbn [while_advancing burst].
    unfold bind at 1. unfold hasTerminated, field at 1.
    destruct (negb (FishProgram.hasTerminated (_program (this w)))
              && (advances <? _FULL_SPEED_ADVANCES)%Z) eqn:C.
    + unfold bind. rewrite _advance_unfold. rewrite IH. cbn [this timers next_timer log].
      cbv zeta. f_equal.
      * f_equal. lia.
      * f_equal. rewrite <- app_assoc. reflexivity.
    + unfold ret. cbv zeta. cbn [advanced_by advance_events Z.of_nat].
      rewrite Z.add_0_r, app_nil_r. destruct w; reflexivity.
Qed.

(** The loop stops by its own condition: the counter never passes the
bound. *)
Lemma burst_bound (fuel : nat) : forall (advances : Z) (e : t Program),
  (advances + Z.of_nat (burst fuel advances e)
   <= Z.max advances _FULL_SPEED_ADVANCES)%Z.
Proof.
  induction fuel as [| fuel IH]; intros advances e; cbn [burst].
  - cbn. lia.
  - destruct (FishProgram.hasTerminated (_program e)); cbn [negb andb].
    + cbn. lia.
    + destruct (Z.ltb_spec advances _FULL_SPEED_ADVANCES).
      * specialize (IH (advances + 1)%Z (advanced e)). lia.
      * cbn. lia.
Qed.

(** While the loop runs, the program has not terminated. *)
Lemma burst_running (fuel : nat) : forall (advances : Z) (e : t Program) (k : nat),
  (k < burst fuel advances e)%nat ->
  FishProgram.hasTerminated (_program (advanced_by k e)) = false.
Proof.
  induction fuel as [| fuel IH]; intros advances e k; cbn [burst].
  - intros Hk; exfalso; lia.
  - destruct (FishProgram.hasTerminated (_program e)) eqn:T; cbn [negb andb].
    + intros Hk; exfalso; lia.
    + destruct (advances <? _FULL_SPEED_ADVANCES)%Z; [| intros Hk; exfalso; lia].
      destruct k as [| k]; intros Hk; [exact T |].
      cbn [advanced_by]. apply (IH (advances + 1)%Z). lia.
Qed.

(** With enough fuel, a loop that stops short of the bound stopped because
the program terminated. *)
Lemma burst_stops (fuel : nat) : forall (advances : Z) (e : t Program),
  (_FULL_SPEED_ADVANCES - advances <= Z.of_nat fuel)%Z ->
  (advances + Z.of_nat (burst fuel advances e) < _FULL_SPEED_ADVANCES)%Z ->
  FishProgram.hasTerminated
    (_program (advanced_by (burst fuel advances e) e)) = true.
Proof.
  induction fuel as [| fuel IH]; intros advances e Hfuel; cbn [burst].
  - intros Hlt; exfalso; lia.
  - destruct (FishProgram.hasTerminated (_program e)) eqn:T; cbn [negb andb].
    + intros _. exact T.
    + destruct (Z.ltb_spec advances _FULL_SPEED_ADVANCES).
      * intros Hlt. cbn [advanced_by]. apply IH; lia.
      * intros Hlt; exfalso; lia.
Qed.

(** Any fuel that covers the distance to the bound gives the same loop. *)
Lemma burst_fuel (fuel : nat) : forall (fuel' : nat) (advances : Z) (e : t Program),
  (_FULL_SPEED_ADVANCES - advances <= Z.of_nat fuel)%Z ->
  (_FULL_SPEED_ADVANCES - advances <= Z.of_nat fuel')%Z ->
  burst fuel advances e = burst fuel' advances e.
Proof.
  induction fuel as [| fuel IH]; intros fuel' advances e Hf Hf'.
  - destruct fuel' as [| fuel']; [reflexivity |].
    cbn [burst]. destruct (Z.ltb_spec advances _FULL_SPEED_ADVANCES).
    + exfalso; lia.
    + rewrite andb_false_r. reflexivity.
  - destruct fuel' as [| fuel'].
    + cbn [burst]. destruct (Z.ltb_spec advances _FULL_SPEED_ADVANCES).
      * exfalso; lia.
      * rewrite andb_false_r. reflexivity.
    + cbn [burst].
      destruct (negb (FishProgram.hasTerminated (_program e))
                && (advances <? _FULL_SPEED_ADVANCES)%Z); [| reflexivity].
      f_equal. apply IH; lia.
Qed.

Lemma while_advancing_fuel (fuel : nat) (advances : Z) (w : World) :
  (_FULL_SPEED_ADVANCES - advances <= Z.of_nat fuel)%Z ->
  while_advancing fuel advances w =
  while_advancing (Z.to_nat (_FULL_SPEED_ADVANCES - advances)) advances w.
Proof.
  intros Hf. rewrite !while_advancing_unfold. cbv zeta.
  rewrite (burst_fuel fuel (Z.to_nat (_FULL_SPEED_ADVANCES - advances)));
    [reflexivity | exact Hf | lia].
Qed.


Lemma forEach_call_unfold (l : list Listener) : forall w : World,
  forEach l call w =
  (Normal tt,
   {| this := this w; timers := timers w; next_timer := next_timer w;
      log := log w ++ map (fun func => ListenerCall func (this w)) l |}).
Proof.
  induction l as [| func l IH]; intros w.
  - simpl. unfold ret. rewrite app_nil_r. destruct w; reflexivity.
  - cbn [forEach map]. unfold bind, call at 1. rewrite IH.
    unfold logged; cbn [this timers next_timer log].
    rewrite <- app_assoc. reflexivity.
Qed.

Lemma run_guard_unfold (w : World) :
  run_guard w = (Normal (guard_rejects (this w)), w).
Proof.
  unfold run_guard, or_else, isPaused, hasTerminated, field, bind, ret,
    guard_rejects.
  destruct (_isPaused (this w)); [reflexivity |].
  destruct (FishProgram.hasTerminated (_program (this w))); [reflexivity |].
  destruct (_timeout (this w)); reflexivity.
Qed.

Lemma bind_normal {A B : Type} (m : M Program A) (k : A -> M Program B)
      (w w' : World) (a : A) :
  m w = (Normal a, w') -> bind m k w = k a w'.
Proof. intros E. unfold bind. rewrite E. reflexivity. Qed.

Lemma _setTimeout_unfold (ms : JS.number) (w : World) :
  _setTimeout ms w =
  (Normal tt,
   {| this := with_timeout (Some (next_timer w)) (this w);
      timers := timers w ++ [(next_timer w, ms)];
      next_timer := S (next_timer w);
      log := log w ++ [SetTimeout (next_timer w) ms] |}).
Proof. reflexivity. Qed.

Lemma _clearTimeout_unfold (w : World) :
  _clearTimeout w =
  (Normal tt,
   {| this := with_timeout None (this w);
      timers := match _timeout (this w) with
                | Some id => disarm id (timers w)
                | None => timers w
                end;
      next_timer := next_timer w;
      log := log w ++ [ClearTimeout (_timeout (this w))] |}).
Proof. reflexivity. Qed.

Lemma _runAtInterval_unfold (w : World) :
  _runAtInterval w =
  (Normal tt,
   {| this := with_timeout (Some (next_timer w)) (advanced (this w));
      timers := timers w ++ [(next_timer w, _intervalTime (this w))];
      next_timer := S (next_timer w);
      log := log w ++ advance_events 1
               ++ [SetTimeout (next_timer w) (_intervalTime (this w))] |}).
Proof.
  unfold _runAtInterval.
  rewrite (bind_normal _ _ _ _ _ (_advance_unfold w)).
  unfold bind, field. rewrite _setTimeout_unfold.
  cbn [this timers next_timer log advance_events].
  destruct (advanced_frame (this w)) as (_ & _ & Hi & _ & _).
  rewrite Hi, <- app_assoc. reflexivity.
Qed.

Lemma _runAtFullSpeed_unfold (w : World) :
  _runAtFullSpeed w =
  let n := burst full_speed_fuel 0%Z (this w) in
  (Normal tt,
   {| this := with_timeout (Some (next_timer w)) (advanced_by n (this w));
      timers := timers w ++ [(next_timer w, JS.of_Z 0)];
      next_timer := S (next_timer w);
      log := log w ++ advance_events n
               ++ [SetTimeout (next_timer w) (JS.of_Z 0)] |}).
Proof.
  unfold _runAtFullSpeed.
  rewrite (bind_normal _ _ _ _ _ (while_advancing_unfold full_speed_fuel 0%Z w)).
  rewrite _setTimeout_unfold. cbv zeta.
  cbn [this timers next_timer log].
  rewrite <- app_assoc. reflexivity.
Qed.

Lemma guard_rejects_started (e : t Program) (b : bool) :
  guard_rejects (with_hasStarted b e) = guard_rejects e.
Proof. reflexivity. Qed.

Lemma run_unfold (w : World) : run w = (Normal tt, ran w).
Proof.
  unfold run, ran. cbv zeta.
  rewrite (bind_normal _ _ w (with_this (with_hasStarted true (this w)) w) tt)
    by reflexivity.
  rewrite (bind_normal _ _ _ _ _ (run_guard_unfold _)).
  cbn [this with_this].
  destruct (guard_rejects (with_hasStarted true (this w))); [reflexivity |].
  unfold bind at 1, field at 1.
  change (this (with_this (with_hasStarted true (this w)) w))
    with (with_hasStarted true (this w)).
  destruct (JS.strict_equals (JS.num (_intervalTime (with_hasStarted true (this w))))
                             (JS.num (JS.of_Z 0))); cbv iota.
  - rewrite (bind_normal _ _ _ _ _ (_runAtFullSpeed_unfold _)).
    unfold bind, field. rewrite forEach_call_unfold.
    cbn [this timers next_timer log].
    rewrite <- !app_assoc. reflexivity.
  - rewrite (bind_normal _ _ _ _ _ (_runAtInterval_unfold _)).
    unfold bind, field. rewrite forEach_call_unfold.
    cbn [this timers next_timer log advanced_by].
    rewrite <- !app_assoc. reflexivity.
Qed.


(** *** Numbers *)

Lemma SFeqb_refl (n : JS.number) : JS.is_NaN n = false -> SFeqb n n = true.
Proof.
  unfold SFeqb. destruct n as [s | s | | s m e]; simpl; try discriminate; intros _.
  - reflexivity.
  - destruct s; reflexivity.
  - destruct s; rewrite Z.compare_refl, Pos.compare_cont_refl; reflexivity.
Qed.

(** [Number(v) === v] holds exactly for the numbers other than [NaN]. *)
Lemma number_test (v : JS.value) :
  JS.strict_equals (JS.Number v) v =
  match v with JS.num n => negb (JS.is_NaN n) | _ => false end.
Proof.
    destruct v as [| | b | n | s | r]; try reflexivity.
  unfold JS.Number, JS.ToNumber, JS.strict_equals.
  destruct (JS.is_NaN n) eqn:N.
  - destruct n; try discriminate. reflexivity.
  - apply SFeqb_refl; exact N.
Qed.

(** [Math.max(n, 0)] for a number [n] other than [NaN]. *)
Lemma Math_max_zero (n : JS.number) :
  JS.is_NaN n = false ->
  JS.Math_max [JS.num n; JS.num (JS.of_Z 0)] =
  if SFltb n JS.pos_zero then JS.pos_zero
  else if JS.is_neg_zero n then JS.pos_zero
  else n.
Proof.
  destruct n as [s | s | | s m e]; try discriminate; intros _;
    destruct s; reflexivity.
Qed.

Lemma Math_max_zero_at_least_zero (n : JS.number) :
  JS.is_NaN n = false ->
  at_least_zero (JS.Math_max [JS.num n; JS.num (JS.of_Z 0)]).
Proof.
  intros N. rewrite (Math_max_zero n N). unfold at_least_zero.
  destruct n as [s | s | | s m e]; try discriminate;
    destruct s; reflexivity.
Qed.

Lemma above_zero_not_zero (n : JS.number) :
  above_zero n -> JS.strict_equals (JS.num n) (JS.num (JS.of_Z 0)) = false.
Proof.
  unfold above_zero. destruct n as [s | s | | s m e]; try discriminate;
    destruct s; try discriminate; reflexivity.
Qed.

Lemma at_least_zero_cases (n : JS.number) :
  at_least_zero n ->
  above_zero n \/ JS.strict_equals (JS.num n) (JS.num (JS.of_Z 0)) = true.
Proof.
  unfold at_least_zero, above_zero.
  destruct n as [s | s | | s m e]; try discriminate;
    destruct s; try discriminate; intros _; (left; reflexivity) || (right; reflexivity).
Qed.

(** *** Arrays *)

Lemma indexOf_from_absent (func : Listener) (l : list Listener) : forall k : Z,
  ~ In func l -> JS.indexOf_from Nat.eqb func l k = (-1)%Z.
Proof.
  induction l as [| g l IH]; intros k Hin; [reflexivity |].
  cbn [JS.indexOf_from].
  destruct (Nat.eqb_spec g func) as [-> | _].
  - exfalso. apply Hin. left; reflexivity.
  - apply IH. intros Hl. apply Hin. right; exact Hl.
Qed.

Lemma indexOf_from_last (func : Listener) (l : list Listener) : forall k : Z,
  ~ In func l ->
  JS.indexOf_from Nat.eqb func (l ++ [func]) k = (k + Z.of_nat (List.length l))%Z.
Proof.
  induction l as [| g l IH]; intros k Hin.
  - cbn [app JS.indexOf_from List.length]. rewrite Nat.eqb_refl. cbn. lia.
  - cbn [app JS.indexOf_from].
    destruct (Nat.eqb_spec g func) as [-> | _].
    + exfalso. apply Hin. left; reflexivity.
    + rewrite IH by (intros Hl; apply Hin; right; exact Hl).
      cbn [List.length]. lia.
Qed.

Lemma splice_last {A : Type} (l : list A) (a : A) :
  JS.splice (Z.of_nat (List.length l)) 1 (l ++ [a]) = l.
Proof.
  unfold JS.splice. rewrite length_app. cbn [List.length].
  destruct (Z.ltb_spec (Z.of_nat (List.length l)) 0); [lia |].
  replace (Z.min (Z.of_nat (List.length l)) (Z.of_nat (List.length l + 1)))
    with (Z.of_nat (List.length l)) by lia.
  replace (Z.min (Z.max 1 0) (Z.of_nat (List.length l + 1) - Z.of_nat (List.length l)))
    with 1%Z by lia.
  rewrite Nat2Z.id.
  replace (Z.to_nat (Z.of_nat (List.length l) + 1)) with (List.length (l ++ [a]))
    by (rewrite length_app; cbn [List.length]; lia).
  rewrite skipn_all, app_nil_r.
  rewrite firstn_app, Nat.sub_diag, firstn_all. cbn [firstn]. apply app_nil_r.
Qed.


(** *** The world after [run()] *)

Lemma advanced_with_hasStarted (b : bool) (e : t Program) :
  advanced (with_hasStarted b e) = with_hasStarted b (advanced e).
Proof.
  unfold advanced. cbn [with_hasStarted _program _output].
  destruct (FishProgram.readOutput (FishProgram.advance (_program e)))
    as [[o | err] p']; reflexivity.
Qed.

Lemma advanced_by_with_hasStarted (b : bool) (n : nat) : forall e : t Program,
  advanced_by n (with_hasStarted b e) = with_hasStarted b (advanced_by n e).
Proof.
  induction n as [| n IH]; intros e; [reflexivity |].
  cbn [advanced_by]. rewrite advanced_with_hasStarted. apply IH.
Qed.

Lemma burst_with_hasStarted (b : bool) (fuel : nat) :
  forall (advances : Z) (e : t Program),
  burst fuel advances (with_hasStarted b e) = burst fuel advances e.
Proof.
  induction fuel as [| fuel IH]; intros advances e; [reflexivity |].
  cbn [burst]. rewrite advanced_with_hasStarted, IH. reflexivity.
Qed.

Lemma new_events_app (w w' : World) (evs : list (Event Program)) :
  log w' = log w ++ evs -> new_events w w' = evs.
Proof.
  intros E. unfold new_events. rewrite E, skipn_app, skipn_all, Nat.sub_diag.
  reflexivity.
Qed.

Lemma advances_in_app (evs evs' : list (Event Program)) :
  advances_in (evs ++ evs') = (advances_in evs + advances_in evs')%nat.
Proof. unfold advances_in. rewrite filter_app, length_app. reflexivity. Qed.

Lemma advances_in_advance_events (n : nat) :
  advances_in (@advance_events Program n) = n.
Proof.
  unfold advances_in. induction n as [| n IH]; [reflexivity |].
  cbn [advance_events filter is_advance List.length]. rewrite IH. reflexivity.
Qed.

Lemma advances_in_listener_calls (l : list Listener) (e : t Program) :
  advances_in (map (fun func => ListenerCall func e) l) = 0%nat.
Proof. unfold advances_in. induction l as [| f l IH]; [reflexivity | exact IH]. Qed.

Lemma listener_calls_app (evs evs' : list (Event Program)) :
  listener_calls (evs ++ evs') = listener_calls evs ++ listener_calls evs'.
Proof. unfold listener_calls. apply flat_map_app. Qed.

Lemma listener_calls_advance_events (n : nat) :
  listener_calls (@advance_events Program n) = [].
Proof. induction n as [| n IH]; [reflexivity | exact IH]. Qed.

Lemma listener_calls_map (l : list Listener) (e : t Program) :
  listener_calls (map (fun func => ListenerCall func e) l) =
  map (fun func => (func, e)) l.
Proof.
  induction l as [| f l IH]; [reflexivity |].
  cbn [map listener_calls flat_map app]. f_equal. exact IH.
Qed.

Lemma ran_rejected (w : World) :
  guard_rejects (this w) = true ->
  ran w = with_this (with_hasStarted true (this w)) w.
Proof.
  intros G. unfold ran. cbv zeta. rewrite guard_rejects_started, G. reflexivity.
Qed.

Lemma ran_accepted (w : World) :
  guard_rejects (this w) = false ->
  let full_speed :=
    JS.strict_equals (JS.num (_intervalTime (this w))) (JS.num (JS.of_Z 0)) in
  let n := if full_speed then burst full_speed_fuel 0%Z (this w) else 1%nat in
  let delay := if full_speed then JS.of_Z 0 else _intervalTime (this w) in
  let e' := with_timeout (Some (next_timer w))
              (with_hasStarted true (advanced_by n (this w))) in
  ran w =
  {| this := e';
     timers := timers w ++ [(next_timer w, delay)];
     next_timer := S (next_timer w);
     log := log w ++ advance_events n ++ [SetTimeout (next_timer w) delay]
              ++ map (fun func => ListenerCall func e')
                     (_advanceListeners (this w)) |}.
Proof.
  intros G. unfold ran. cbv zeta. rewrite guard_rejects_started, G.
  change (_intervalTime (with_hasStarted true (this w)))
    with (_intervalTime (this w)).
  rewrite burst_with_hasStarted.
  set (n := if JS.strict_equals _ _ then burst _ _ _ else 1%nat).
  rewrite advanced_by_with_hasStarted.
  change (_advanceListeners
            (with_timeout (Some (next_timer w))
               (with_hasStarted true (advanced_by n (this w)))))
    with (_advanceListeners (advanced_by n (this w))).
  destruct (advanced_by_frame n (this w)) as (_ & _ & _ & _ & L).
  rewrite L. reflexivity.
Qed.


(** What [run()] keeps, and what it does to the output. *)
Lemma ran_frame (w : World) :
  _isPaused (this (ran w)) = _isPaused (this w) /\
  _intervalTime (this (ran w)) = _intervalTime (this w) /\
  _advanceListeners (this (ran w)) = _advanceListeners (this w) /\
  exists s, _output (this (ran w)) = String.append (_output (this w)) s.
Proof.
  destruct (guard_rejects (this w)) eqn:G.
  - rewrite (ran_rejected w G). cbn [this with_this].
    repeat split; try reflexivity.
    exists EmptyString. symmetry. apply append_empty.
  - pose proof (ran_accepted w G) as R. cbv zeta in R. rewrite R.
    cbn [this]. cbn [_isPaused _intervalTime _advanceListeners _output
                     with_timeout with_hasStarted].
    match goal with
    | |- context [advanced_by ?n (this w)] =>
        destruct (advanced_by_frame n (this w)) as (P & _ & I & _ & L);
        destruct (advanced_by_output n (this w)) as [s O]
    end.
    repeat split; try assumption. exists s; exact O.
Qed.

(** *** The other methods, as functions on worlds *)

Lemma set_intervalTime_other (v : JS.value) (w : World) :
  JS.strict_equals (JS.Number v) v = false ->
  set_intervalTime v w = (Normal tt, w).
Proof. intros E. unfold set_intervalTime. rewrite E. reflexivity. Qed.

Lemma set_intervalTime_number (n : JS.number) (w : World) :
  JS.is_NaN n = false ->
  let stored := JS.Math_max [JS.num n; JS.num (JS.of_Z 0)] in
  let w1 := exec _clearTimeout (with_this (with_intervalTime stored (this w)) w) in
  set_intervalTime (JS.num n) w =
  (Normal tt, if _hasStarted (this w) then ran w1 else w1).
Proof.
  intros N. cbv zeta. unfold set_intervalTime.
  rewrite number_test, N. cbn [negb].
  rewrite (bind_normal _ _ w
             (with_this (with_intervalTime
                           (JS.Math_max [JS.num n; JS.num (JS.of_Z 0)]) (this w)) w) tt)
    by reflexivity.
  rewrite (bind_normal _ _ _ _ _ (_clearTimeout_unfold _)).
  unfold bind at 1, field at 1. cbn [this with_this with_timeout with_intervalTime _hasStarted].
  destruct (_hasStarted (this w)).
  - rewrite run_unfold. reflexivity.
  - reflexivity.
Qed.

Lemma resume_unfold (w : World) :
  resume w = (Normal tt, ran (with_this (with_isPaused false (this w)) w)).
Proof.
  unfold resume.
  rewrite (bind_normal _ _ w (with_this (with_isPaused false (this w)) w) tt)
    by reflexivity.
  apply run_unfold.
Qed.

Lemma timeout_callback_unfold (w : World) :
  timeout_callback w = (Normal tt, ran (exec _clearTimeout w)).
Proof.
  unfold timeout_callback.
  rewrite (bind_normal _ _ _ _ _ (_clearTimeout_unfold _)).
  rewrite run_unfold. reflexivity.
Qed.

Lemma giveInput_this (c : JS.value) (w : World) :
  this (exec (giveInput c) w) =
  with_program (snd (FishProgram.giveInput c (_program (this w)))) (this w).
Proof.
  unfold exec, giveInput, program_giveInput, bind, emit.
  cbn [logged this].
  destruct (FishProgram.giveInput c (_program (this w))) as [r p]. reflexivity.
Qed.

Lemma offAdvance_output (func : Listener) (w : World) :
  _output (this (exec (offAdvance func) w)) = _output (this w) /\
  _intervalTime (this (exec (offAdvance func) w)) = _intervalTime (this w).
Proof.
  unfold exec, offAdvance, bind, field.
  destruct (0 <=? JS.indexOf Nat.eqb func (_advanceListeners (this w)))%Z;
    split; reflexivity.
Qed.

Lemma evaluate_same (g : Getter) (w : World) : evaluate g w = w.
Proof. destruct g; reflexivity. Qed.

(** Every operation extends the output, and none but the assignment of a
number changes the interval time. *)
Lemma perform_frame (op : Operation) (w : World) :
  (exists s, _output (this (perform op w)) = String.append (_output (this w)) s) /\
  (_intervalTime (this (perform op w)) = _intervalTime (this w) \/
   exists n, JS.is_NaN n = false /\
             _intervalTime (this (perform op w)) =
             JS.Math_max [JS.num n; JS.num (JS.of_Z 0)]).
Proof.
  assert (same : forall e : t Program, exists s, _output e = String.append (_output e) s)
    by (intros e; exists EmptyString; symmetry; apply append_empty).
  destruct op as [func | func | g | c | v | | | | id]; cbn [perform].
  - split; [exact (same (this w)) | left; reflexivity].
  - destruct (offAdvance_output func w) as [O I]. rewrite O, I.
    split; [exact (same (this w)) | left; reflexivity].
  - rewrite evaluate_same. split; [exact (same (this w)) | left; reflexivity].
  - rewrite giveInput_this. split; [exact (same (this w)) | left; reflexivity].
  - destruct (JS.strict_equals (JS.Number v) v) eqn:E.
        + rewrite number_test in E. destruct v as [| | b | n | s | r]; try discriminate.
      apply negb_true_iff in E.
      unfold exec at 1 3. rewrite (set_intervalTime_number n w E). cbn [snd]. cbv zeta.
      set (w1 := exec _clearTimeout _).
      assert (O1 : _output (this w1) = _output (this w)) by reflexivity.
      assert (I1 : _intervalTime (this w1) = JS.Math_max [JS.num n; JS.num (JS.of_Z 0)])
        by reflexivity.
      destruct (_hasStarted (this w)).
      * destruct (ran_frame w1) as (_ & I & _ & s & O).
        rewrite O, O1, I, I1. split; [exists s; reflexivity |].
        right. exists n. split; [exact E | reflexivity].
      * rewrite O1, I1. split; [exact (same (this w)) |].
        right. exists n. split; [exact E | reflexivity].
    + unfold exec. rewrite (set_intervalTime_other v w E). cbn [snd].
      split; [exact (same (this w)) | left; reflexivity].
  - split; [exact (same (this w)) | left; reflexivity].
  - unfold exec. rewrite resume_unfold. cbn [snd].
    destruct (ran_frame (with_this (with_isPaused false (this w)) w))
      as (_ & I & _ & s & O).
    rewrite O, I. split; [exists s; reflexivity | left; reflexivity].
  - unfold exec. rewrite run_unfold. cbn [snd].
    destruct (ran_frame w) as (_ & I & _ & s & O).
    rewrite O, I. split; [exists s; reflexivity | left; reflexivity].
  - unfold exec, timer_fires.
    destruct (existsb (fun entry => Nat.eqb (fst entry) id) (timers w)).
    + rewrite timeout_callback_unfold. cbn [snd].
      match goal with |- context [ran ?w1] =>
        destruct (ran_frame w1) as (_ & I & _ & s & O) end.
      rewrite O, I. split; [exists s; reflexivity | left; reflexivity].
    + cbn [snd]. split; [exact (same (this w)) | left; reflexivity].
Qed.

(** ** The claims *)

(** C1, as amended.  If the program has already terminated, [run()] returns
normally without an instruction cycle: nothing is logged (no call of
[advance()], of a timer function or of a listener), and the world it leaves
is the world before the call with the field [_hasStarted] set to true.  The
output, the pause flag, the interval time, the pending timeout, the listener
list, the program and the armed timers are as before; so is [_hasStarted]
when the executor had been started already, and then the call changes
nothing at all. *)
Theorem run_after_termination (w : World) :
  FishProgram.hasTerminated (_program (this w)) = true ->
  result run w = Normal tt /\
  exec run w = with_this (with_hasStarted true (this w)) w /\
  new_events w (exec run w) = [] /\
  (_hasStarted (this w) = true -> exec run w = w).
Proof.
  intros T.
  assert (G : guard_rejects (this w) = true).
  { unfold guard_rejects. rewrite T. apply orb_true_iff. left.
    apply orb_true_r. }
  unfold result, exec. rewrite run_unfold. cbn [fst snd].
  rewrite (ran_rejected w G).
  split; [reflexivity |]. split; [reflexivity |]. split.
  - apply new_events_app. cbn [log with_this]. symmetry. apply app_nil_r.
  - intros S. destruct w as [[p o ip hs it tm ls] ts nt lg].
    cbn in S. subst hs. reflexivity.
Qed.

(** C2.  One [_advance()] calls the program's [advance()] once and then its
[readOutput()] once, and nothing else; the program it leaves is the one
[readOutput()] leaves after [advance()].  If the read returns a string, the
string is appended to the end of [_output]; if it throws, [_advance()]
still returns normally and [_output] is unchanged.  No other field, and no
timer, changes. *)
Theorem _advance_reads_output_once (w : World) :
  let w' := exec _advance w in
  let read := FishProgram.readOutput (FishProgram.advance (_program (this w))) in
  result _advance w = Normal tt /\
  log w' = log w ++ [ProgramAdvance; ProgramReadOutput] /\
  _program (this w') = snd read /\
  _output (this w') =
    match fst read with
    | Normal o => String.append (_output (this w)) o
    | Throw _ => _output (this w)
    end /\
  with_output (_output (this w)) (with_program (_program (this w)) (this w'))
    = this w /\
  timers w' = timers w /\ next_timer w' = next_timer w.
Proof.
  cbv zeta. unfold result, exec. rewrite _advance_unfold. cbn [fst snd this log timers next_timer].
  unfold advanced.
  destruct (FishProgram.readOutput (FishProgram.advance (_program (this w))))
    as [[o | err] p'];
    destruct w as [[p out ip hs it tm ls] ts nt lg]; cbn;
    repeat split; reflexivity.
Qed.

(** C6.  Each of the getters [instructionPointer], [inputBuffer],
[stackSnapshot], [hasStarted], [isPaused], [intervalTime], [output] and
[hasTerminated] returns normally the value it reads, from the executor or
from the program, and leaves the world as it was: no field of the executor,
nothing of the program, no timer and no log entry changes. *)
Theorem getters_are_read_only (w : World) :
  instructionPointer w
    = (Normal (FishProgram.instructionPointer (_program (this w))), w) /\
  inputBuffer w = (Normal (FishProgram.inputBuffer (_program (this w))), w) /\
  stackSnapshot w = (Normal (FishProgram.stack_snapshot (_program (this w))), w) /\
  hasStarted w = (Normal (_hasStarted (this w)), w) /\
  isPaused w = (Normal (_isPaused (this w)), w) /\
  intervalTime w = (Normal (_intervalTime (this w)), w) /\
  output w = (Normal (_output (this w)), w) /\
  hasTerminated w = (Normal (FishProgram.hasTerminated (_program (this w))), w).
Proof. repeat split. Qed.

(** C7.  [new FishExecutor(source, initialStack)] builds its program as
[new FishProgram(source, initialStack)], with the two arguments as given
([None] when the stack is left out), and sets the output to the empty
string, both flags to false, the interval time to 100, the timeout to
[null] and the listener list to the empty list. *)
Theorem constructor_initial_state (source : string)
        (initialStack : option (list JS.number)) :
  let e := new_FishExecutor source initialStack in
  _program e = FishProgram.new_FishProgram source initialStack /\
  _output e = EmptyString /\
  _isPaused e = false /\
  _hasStarted e = false /\
  _intervalTime e = JS.of_Z 100 /\
  _timeout e = None /\
  _advanceListeners e = [].
Proof. repeat split. Qed.

(** C8.  The interval time is never negative.  It is 100 after
construction.  Assigning a value [v] with [Number(v) !== v] (anything but a
number, or [NaN]) changes nothing.  Assigning a number below zero stores
[+0].  Assigning any other number stores that number: the stored value is
strictly equal ([===]) to it, and identical to it unless it is the negative
zero, for which [Math.max] gives [+0].  Hence every operation keeps
[intervalTime >= 0], and it holds in every reachable world. *)
Theorem intervalTime_is_never_negative :
  (forall source initialStack,
     _intervalTime (new_FishExecutor source initialStack) = JS.of_Z 100) /\
  (forall (v : JS.value) (w : World),
     JS.strict_equals (JS.Number v) v = false ->
     exec (set_intervalTime v) w = w) /\
  (forall (n : JS.number) (w : World),
     below_zero n ->
     _intervalTime (this (exec (set_intervalTime (JS.num n)) w)) = JS.pos_zero) /\
  (forall (n : JS.number) (w : World),
     JS.strict_equals (JS.Number (JS.num n)) (JS.num n) = true ->
     ~ below_zero n ->
     let stored := _intervalTime (this (exec (set_intervalTime (JS.num n)) w)) in
     JS.strict_equals (JS.num stored) (JS.num n) = true /\
     (JS.is_neg_zero n = false -> stored = n)) /\
  (forall (op : Operation) (w : World),
     at_least_zero (_intervalTime (this w)) ->
     at_least_zero (_intervalTime (this (perform op w)))) /\
  (forall w : World, reachable w -> at_least_zero (_intervalTime (this w))).
Proof.
  assert (stored_value : forall (n : JS.number) (w : World),
            JS.is_NaN n = false ->
            _intervalTime (this (exec (set_intervalTime (JS.num n)) w)) =
            JS.Math_max [JS.num n; JS.num (JS.of_Z 0)]).
  { intros n w N. unfold exec. rewrite (set_intervalTime_number n w N).
    cbn [snd]. cbv zeta. destruct (_hasStarted (this w)); [| reflexivity].
    match goal with |- context [ran ?w1] =>
      destruct (ran_frame w1) as (_ & I & _) end.
    rewrite I. reflexivity. }
  assert (step : forall (op : Operation) (w : World),
            at_least_zero (_intervalTime (this w)) ->
            at_least_zero (_intervalTime (this (perform op w)))).
  { intros op w Hw. destruct (perform_frame op w) as [_ [I | (n & N & I)]].
    - rewrite I. exact Hw.
    - rewrite I. apply Math_max_zero_at_least_zero. exact N. }
  split; [reflexivity |]. split; [| split; [| split; [| split]]].
  - intros v w E. unfold exec. rewrite (set_intervalTime_other v w E). reflexivity.
  - intros n w B.
    assert (N : JS.is_NaN n = false)
      by (destruct n; try reflexivity; discriminate B).
    rewrite (stored_value n w N), (Math_max_zero n N).
    unfold below_zero in B. rewrite B. reflexivity.
  - intros n w E B. cbv zeta.
    rewrite number_test in E. apply negb_true_iff in E.
    rewrite (stored_value n w E), (Math_max_zero n E).
    unfold below_zero in B. apply not_true_is_false in B. rewrite B.
    destruct (JS.is_neg_zero n) eqn:Z0.
    + split; [| discriminate].
      destruct n as [s | s | | s m e]; try discriminate. destruct s; [reflexivity | discriminate].
    + split; [| reflexivity]. cbn [JS.strict_equals]. apply SFeqb_refl. exact E.
  - exact step.
  - intros w R. induction R as [source initialStack w F | op w R IH].
    + unfold fresh in F. rewrite F. reflexivity.
    + apply step. exact IH.
Qed.

(** C9.  If [func] is not in the listener list, [onAdvance(func)] followed
by [offAdvance(func)] gives back the list as it was; nothing else changes
either, so the world is the one before the two calls.  And [offAdvance(func)]
alone, for such a [func], changes nothing. *)
Theorem onAdvance_then_offAdvance (func : Listener) (w : World) :
  ~ In func (_advanceListeners (this w)) ->
  _advanceListeners (this (exec (offAdvance func) (exec (onAdvance func) w)))
    = _advanceListeners (this w) /\
  exec (offAdvance func) (exec (onAdvance func) w) = w /\
  exec (offAdvance func) w = w.
Proof.
  intros Hin.
  assert (There : exec (offAdvance func) (exec (onAdvance func) w) = w).
  { unfold exec, offAdvance, onAdvance, bind, field, assign.
    cbn [snd this with_this _advanceListeners with_advanceListeners].
    unfold JS.indexOf. rewrite (indexOf_from_last func _ 0%Z Hin), Z.add_0_l.
    destruct (Z.leb_spec 0 (Z.of_nat (List.length (_advanceListeners (this w)))));
      [| lia].
    cbn [snd this with_this _advanceListeners with_advanceListeners].
    rewrite splice_last.
    destruct w as [[p o ip hs it tm ls] ts nt lg]. reflexivity. }
  split; [rewrite There; reflexivity |]. split; [exact There |].
  unfold exec, offAdvance, bind, field. cbn [snd].
  unfold JS.indexOf. rewrite (indexOf_from_absent func _ 0%Z Hin). reflexivity.
Qed.

(** C10.  The output only grows: after any operation ([onAdvance],
[offAdvance], a getter, [giveInput], an assignment to [intervalTime],
[pause], [resume], [run], or a timer firing), and so after any sequence of
them, the output is the output before followed by a suffix, which may be
empty. *)
Theorem output_is_append_only :
  (forall (op : Operation) (w : World),
     exists s, _output (this (perform op w)) = String.append (_output (this w)) s) /\
  (forall (ops : list Operation) (w : World),
     exists s, _output (this (perform_all ops w)) = String.append (_output (this w)) s).
Proof.
  assert (one : forall (op : Operation) (w : World),
            exists s, _output (this (perform op w)) = String.append (_output (this w)) s)
    by (intros op w; exact (proj1 (perform_frame op w))).
  split; [exact one |].
  intros ops. induction ops as [| op ops IH]; intros w.
  - exists EmptyString. symmetry. apply append_empty.
  - cbn [perform_all fold_left]. destruct (IH (perform op w)) as [s Hs].
    destruct (one op w) as [s' Hs'].
    exists (String.append s' s).
    unfold perform_all in Hs. rewrite Hs, Hs'. apply append_assoc.
Qed.

End Properties.

(** ** The claim about input, on the program of the spec *)

(** C5.  For every value [c], [giveInput(c)] throws exactly when [c] is not
a string of exactly one character.  When it is one, the call returns
normally and the program is as before with [c] appended to the end of its
input buffer.  When it is not, the error is [InvalidInputError] and the
program is unchanged.  In both cases the executor's own fields (output,
flags, interval time, timeout, listener list) and the timers are as
before. *)
Theorem giveInput_enqueues_one_character (c : JS.value) (w : World SpecProgram.t) :
  let w' := exec (giveInput c) w in
  let p := _program (this w) in
  throws (result (giveInput c) w) = negb (one_character c) /\
  (one_character c = true ->
   exists s : string,
     c = JS.str s /\
     result (giveInput c) w = Normal tt /\
     FishProgram.inputBuffer (_program (this w')) = FishProgram.inputBuffer p ++ [s] /\
     _program (this w') =
       {| SpecProgram.grid := SpecProgram.grid p;
          SpecProgram.ip := SpecProgram.ip p;
          SpecProgram.stack := SpecProgram.stack p;
          SpecProgram.stringMode := SpecProgram.stringMode p;
          SpecProgram.input := SpecProgram.input p ++ [s];
          SpecProgram.output := SpecProgram.output p;
          SpecProgram.terminated := SpecProgram.terminated p;
          SpecProgram.error := SpecProgram.error p |}) /\
  (one_character c = false ->
   result (giveInput c) w = Throw InvalidInputError /\
   _program (this w') = p) /\
  with_program p (this w') = this w /\
  timers w' = timers w /\
  next_timer w' = next_timer w.
Proof.
  cbv zeta.
  assert (own : with_program (_program (this w)) (this (exec (giveInput c) w)) = this w).
  { rewrite giveInput_this. destruct w as [[p o ip hs it tm ls] ts nt lg]. reflexivity. }
  assert (host : timers (exec (giveInput c) w) = timers w /\
                 next_timer (exec (giveInput c) w) = next_timer w).
  { unfold exec, giveInput, program_giveInput, bind, emit. cbn [logged this].
    destruct (FishProgram.giveInput c (_program (this w))); split; reflexivity. }
  destruct host as [Ht Hn].
    destruct c as [| | b | n | s | r]; try (repeat split; try assumption; discriminate).
  destruct s as [| a [| b s]].
  - repeat split; try assumption; discriminate.
  - split; [reflexivity |]. split; [| split; [discriminate | repeat split; assumption]].
    intros _. exists (String a EmptyString). repeat split.
  - repeat split; try assumption; discriminate.
Qed.

(** ** Counterexamples and instances *)

(** Counterexample to C1 as stated: the program of [halted_unstarted] has
terminated and the executor has not been started; [run()] changes
[hasStarted] from false to true. *)
Lemma run_after_termination_sets_hasStarted :
  FishProgram.hasTerminated (_program (this halted_unstarted)) = true /\
  _hasStarted (this halted_unstarted) = false /\
  _hasStarted (this (exec run halted_unstarted)) = true.
Proof. repeat split. Qed.

(** [run()] on [halted_unstarted]: only [_hasStarted] changes. *)
Lemma run_after_termination_witness :
  FishProgram.hasTerminated (_program (this halted_unstarted)) = true /\
  (result run halted_unstarted = Normal tt /\
   exec run halted_unstarted
     = with_this (with_hasStarted true (this halted_unstarted)) halted_unstarted /\
   new_events halted_unstarted (exec run halted_unstarted) = [] /\
   (_hasStarted (this halted_unstarted) = true ->
    exec run halted_unstarted = halted_unstarted)).
Proof.
  split; [reflexivity |].
  apply (run_after_termination halted_unstarted). reflexivity.
Defined.

(** The two listeners of [listening] are called in the order of their
registration. *)
Example run_calls_7_then_9 :
  map fst (listener_calls (new_events listening (exec run listening))) = [7; 9].
Proof. vm_compute. reflexivity. Qed.

(** The function [5] is not registered in [listening]. *)
Lemma onAdvance_then_offAdvance_witness :
  ~ In 5 (_advanceListeners (this listening)) /\
  (_advanceListeners (this (exec (offAdvance 5) (exec (onAdvance 5) listening)))
     = _advanceListeners (this listening) /\
   exec (offAdvance 5) (exec (onAdvance 5) listening) = listening /\
   exec (offAdvance 5) listening = listening).
Proof.
  assert (Hin : ~ In 5 (_advanceListeners (this listening))).
  { cbn. intros [E | [E | []]]; discriminate E. }
  split; [exact Hin |].
  apply (onAdvance_then_offAdvance 5 listening). exact Hin.
Defined.

(** [giveInput("a")] is accepted and queued; [giveInput("ab")] throws and
leaves the program alone. *)
Lemma giveInput_witness :
  (one_character (JS.str "a") = true /\
   result (giveInput (JS.str "a")) listening = Normal tt /\
   FishProgram.inputBuffer (_program (this (exec (giveInput (JS.str "a")) listening)))
     = ["a"%string]) /\
  (one_character (JS.str "ab") = false /\
   result (giveInput (JS.str "ab")) listening = Throw InvalidInputError /\
   _program (this (exec (giveInput (JS.str "ab")) listening))
     = _program (this listening)).
Proof.
  split.
  - split; [reflexivity |].
    destruct (giveInput_enqueues_one_character (JS.str "a") listening)
      as (_ & Hgood & _).
    destruct (Hgood eq_refl) as (s & Hs & Hr & Hq & _).
    injection Hs as <-. split; [exact Hr | exact Hq].
  - split; [reflexivity |].
    destruct (giveInput_enqueues_one_character (JS.str "ab") listening)
      as (_ & _ & Hbad & _).
    exact (Hbad eq_refl).
Defined.

(** Assigning [-5] stores [+0]; assigning a string changes nothing; the
world [listening] is reachable, and its interval time is not negative. *)
Lemma intervalTime_witness :
  (below_zero (JS.of_Z (-5)) /\
   _intervalTime
     (this (exec (@set_intervalTime _ _ example_runtime (JS.num (JS.of_Z (-5))))
                 listening)) = JS.pos_zero) /\
  (JS.strict_equals (@JS.Number example_runtime (JS.str "fast")) (JS.str "fast") = false /\
   exec (@set_intervalTime _ _ example_runtime (JS.str "fast")) listening = listening) /\
  (@reachable _ _ example_runtime listening /\
   at_least_zero (_intervalTime (this listening))).
Proof.
  destruct (@intervalTime_is_never_negative SpecProgram.t SpecProgram.api example_runtime)
    as (_ & Hother & Hneg & _ & _ & Hreach).
  split; [| split].
  - split; [reflexivity |]. apply Hneg. reflexivity.
  - split; [reflexivity |]. apply Hother. reflexivity.
  - assert (R : @reachable _ _ example_runtime listening).
    { apply (reachable_step (OnAdvance 9)).
      apply (reachable_step (OnAdvance 7)).
      apply (reachable_new "12;" None). reflexivity. }
    split; [exact R | apply Hreach; exact R].
Defined.

(** The interval time set by the constructor: the double 100, that is
[7036874417766400 * 2 ^ (-46)]. *)
Example one_hundred :
  JS.of_Z 100 = S754_finite false 7036874417766400 (-46) /\
  (7036874417766400 = 100 * 2 ^ 46)%Z.
Proof. split; reflexivity. Qed.

(** ** Properties of the operations *)

Section Operations.

Context {Program : Type} `{FishProgram.API Program} `{JS.Runtime}.

#[local] Abbreviation World := (World Program).

(** *** Removing a listener *)

Lemma without_first_absent (func : Listener) (l : list Listener) :
  ~ In func l -> without_first func l = l.
Proof.
  induction l as [| g l IH]; intros Hin; [reflexivity |].
  cbn [without_first]. destruct (Nat.eqb_spec g func) as [-> | _].
  - exfalso. apply Hin. left; reflexivity.
  - f_equal. apply IH. intros Hl. apply Hin. right; exact Hl.
Qed.

Lemma without_first_split (func : Listener) (l1 l2 : list Listener) :
  ~ In func l1 -> without_first func (l1 ++ func :: l2) = l1 ++ l2.
Proof.
  induction l1 as [| g l1 IH]; intros Hin.
  - cbn [app without_first]. rewrite Nat.eqb_refl. reflexivity.
  - cbn [app without_first]. destruct (Nat.eqb_spec g func) as [-> | _].
    + exfalso. apply Hin. left; reflexivity.
    + f_equal. apply IH. intros Hl. apply Hin. right; exact Hl.
Qed.

(** A list either lacks [func] or splits at its first occurrence. *)
Lemma first_occurrence (func : Listener) (l : list Listener) :
  ~ In func l \/
  exists l1 l2, l = l1 ++ func :: l2 /\ ~ In func l1.
Proof.
  induction l as [| g l IH].
  - left. intros [].
  - destruct (Nat.eqb_spec g func) as [-> | Hne].
    + right. exists [], l. split; [reflexivity | intros []].
    + destruct IH as [Hin | (l1 & l2 & -> & Hin)].
      * left. intros [E | Hl]; [exact (Hne E) | exact (Hin Hl)].
      * right. exists (g :: l1), l2. split; [reflexivity |].
        intros [E | Hl]; [exact (Hne E) | exact (Hin Hl)].
Qed.

Lemma indexOf_from_split (func : Listener) (l1 l2 : list Listener) : forall k : Z,
  ~ In func l1 ->
  JS.indexOf_from Nat.eqb func (l1 ++ func :: l2) k
  = (k + Z.of_nat (List.length l1))%Z.
Proof.
  induction l1 as [| g l1 IH]; intros k Hin.
  - cbn [app JS.indexOf_from List.length]. rewrite Nat.eqb_refl. cbn. lia.
  - cbn [app JS.indexOf_from].
    destruct (Nat.eqb_spec g func) as [-> | _].
    + exfalso. apply Hin. left; reflexivity.
    + rewrite IH by (intros Hl; apply Hin; right; exact Hl).
      cbn [List.length]. lia.
Qed.

Lemma splice_one {A : Type} (l1 l2 : list A) (a : A) :
  JS.splice (Z.of_nat (List.length l1)) 1 (l1 ++ a :: l2) = l1 ++ l2.
Proof.
  unfold JS.splice. rewrite length_app. cbn [List.length].
  destruct (Z.ltb_spec (Z.of_nat (List.length l1)) 0); [lia |].
  replace (Z.min (Z.of_nat (List.length l1))
                 (Z.of_nat (List.length l1 + S (List.length l2))))
    with (Z.of_nat (List.length l1)) by lia.
  replace (Z.min (Z.max 1 0)
                 (Z.of_nat (List.length l1 + S (List.length l2))
                  - Z.of_nat (List.length l1)))
    with 1%Z by lia.
  rewrite Nat2Z.id.
  replace (Z.to_nat (Z.of_nat (List.length l1) + 1)) with (List.length l1 + 1)%nat by lia.
  rewrite firstn_app, Nat.sub_diag, firstn_all. cbn [firstn]. rewrite app_nil_r.
  rewrite skipn_app, skipn_all2 by lia.
  replace (List.length l1 + 1 - List.length l1)%nat with 1%nat by lia.
  reflexivity.
Qed.

Lemma offAdvance_unfold (func : Listener) (w : World) :
  offAdvance func w =
  (Normal tt,
   with_this (with_advanceListeners
                (without_first func (_advanceListeners (this w))) (this w)) w).
Proof.
  unfold offAdvance, bind, field, assign. cbv beta iota.
  destruct (first_occurrence func (_advanceListeners (this w)))
    as [Hin | (l1 & l2 & E & Hin)].
  - unfold JS.indexOf. rewrite (indexOf_from_absent func _ 0%Z Hin).
    rewrite (without_first_absent func _ Hin). cbn.
    destruct w as [[p o ip hs it tm ls] ts nt lg]. reflexivity.
  - unfold JS.indexOf. rewrite E, (indexOf_from_split func l1 l2 0%Z Hin), Z.add_0_l.
    destruct (Z.leb_spec 0 (Z.of_nat (List.length l1))); [| lia].
    rewrite E, splice_one, (without_first_split func l1 l2 Hin). reflexivity.
Qed.


(** *** The world after [run()], continued *)

Lemma ran_started (w : World) : _hasStarted (this (ran w)) = true.
Proof.
  destruct (guard_rejects (this w)) eqn:G.
  - rewrite (ran_rejected w G). reflexivity.
  - pose proof (ran_accepted w G) as R. cbv zeta in R. rewrite R. reflexivity.
Qed.

Lemma ran_blocked (w : World) :
  _isPaused (this w) = true \/ FishProgram.hasTerminated (_program (this w)) = true ->
  ran w = with_this (with_hasStarted true (this w)) w.
Proof.
  intros B. apply ran_rejected. unfold guard_rejects.
  destruct B as [B | B]; rewrite B; [reflexivity |].
  rewrite orb_true_r. reflexivity.
Qed.

Lemma ran_single_timer (w : World) : single_timer w -> single_timer (ran w).
Proof.
  intros S. destruct (guard_rejects (this w)) eqn:G.
  - rewrite (ran_rejected w G). exact S.
  - pose proof (ran_accepted w G) as R. cbv zeta in R. rewrite R.
    unfold single_timer in *. cbn [this timers _timeout with_timeout].
    unfold guard_rejects in G.
    destruct (_timeout (this w)) as [id |].
    + rewrite orb_true_r in G. discriminate G.
    + rewrite S. eexists. reflexivity.
Qed.



Lemma advanced_by_drained (n : nat) : forall e : t Program,
  _output (advanced_by n e)
    = String.append (_output e) (drained n (_program e)) /\
  _program (advanced_by n e) = stepped n (_program e).
Proof.
  induction n as [| n IH]; intros e.
  - cbn [advanced_by drained stepped]. rewrite append_empty. split; reflexivity.
  - cbn [advanced_by drained stepped].
    destruct (IH (advanced e)) as [O P]. rewrite O, P. unfold advanced.
    destruct (FishProgram.readOutput (FishProgram.advance (_program e)))
      as [[o | err] p']; cbn [_output _program with_output with_program snd];
      split; try reflexivity.
    apply append_assoc.
Qed.

(** The events of a [run()] that passes the guard, and their number. *)
Lemma ran_accepted_events (w : World) :
  guard_rejects (this w) = false ->
  let full_speed :=
    JS.strict_equals (JS.num (_intervalTime (this w))) (JS.num (JS.of_Z 0)) in
  let n := if full_speed then burst full_speed_fuel 0%Z (this w) else 1%nat in
  let delay := if full_speed then JS.of_Z 0 else _intervalTime (this w) in
  new_events w (ran w) =
    advance_events n ++ [SetTimeout (next_timer w) delay]
      ++ map (fun func => ListenerCall func (this (ran w)))
             (_advanceListeners (this w)) /\
  advances_in (new_events w (ran w)) = n /\
  timeouts_set_in (new_events w (ran w)) = 1%nat.
Proof.
  intros G. pose proof (ran_accepted w G) as R. cbv zeta in R. cbv zeta.
  set (n := if JS.strict_equals _ _ then burst _ _ _ else 1%nat) in *.
  rewrite (new_events_app w (ran w) _ (f_equal log R)).
  rewrite R. cbn [this].
  split; [reflexivity |]. split.
  - rewrite !advances_in_app, advances_in_advance_events,
      advances_in_listener_calls. cbn. lia.
  - unfold timeouts_set_in. rewrite !filter_app, !length_app.
    assert (A : forall k, filter (fun ev : Event Program =>
                match ev with SetTimeout _ _ => true | _ => false end)
                (advance_events k) = []).
    { induction k as [| k IH]; [reflexivity | exact IH]. }
    assert (L : forall (l : list Listener) (e : t Program),
              filter (fun ev : Event Program =>
                match ev with SetTimeout _ _ => true | _ => false end)
                (map (fun func => ListenerCall func e) l) = []).
    { induction l as [| f l IH]; intros e; [reflexivity | apply IH]. }
    rewrite A, L. reflexivity.
Qed.

(** *** Each operation, as a function on worlds *)

Lemma giveInput_world (c : JS.value) (w : World) :
  exec (giveInput c) w =
  {| this := with_program (snd (FishProgram.giveInput c (_program (this w)))) (this w);
     timers := timers w; next_timer := next_timer w;
     log := log w ++ [ProgramGiveInput c] |}.
Proof.
  unfold exec, giveInput, program_giveInput, bind, emit.
  cbn [logged this timers next_timer log].
  destruct (FishProgram.giveInput c (_program (this w))) as [r p]. reflexivity.
Qed.

Lemma timer_fires_world (id : TimerId) (w : World) :
  exec (timer_fires id) w =
  if existsb (fun entry => Nat.eqb (fst entry) id) (timers w)
  then ran (exec _clearTimeout
              {| this := this w; timers := disarm id (timers w);
                 next_timer := next_timer w; log := log w |})
  else w.
Proof.
  unfold exec, timer_fires.
  destruct (existsb (fun entry => Nat.eqb (fst entry) id) (timers w)).
  - rewrite timeout_callback_unfold. reflexivity.
  - reflexivity.
Qed.

Lemma set_intervalTime_world (v : JS.value) (w : World) :
  exec (set_intervalTime v) w =
  match v with
  | JS.num n =>
      if JS.is_NaN n then w
      else
        let w1 := exec _clearTimeout
                    (with_this (with_intervalTime
                                  (JS.Math_max [JS.num n; JS.num (JS.of_Z 0)])
                                  (this w)) w) in
        if _hasStarted (this w) then ran w1 else w1
  | _ => w
  end.
Proof.
  unfold exec.
  destruct (JS.strict_equals (JS.Number v) v) eqn:E.
  - rewrite number_test in E. destruct v as [| | b | n | s | r]; try discriminate.
    apply negb_true_iff in E. rewrite (set_intervalTime_number n w E), E. reflexivity.
  - rewrite (set_intervalTime_other v w E).
    rewrite number_test in E. destruct v as [| | b | n | s | r]; try reflexivity.
    apply negb_false_iff in E. rewrite E. reflexivity.
Qed.

Lemma disarm_single (id : TimerId) (ms : JS.number) : disarm id [(id, ms)] = [].
Proof. unfold disarm. cbn. rewrite Nat.eqb_refl. reflexivity. Qed.

(** Clearing the timeout of a world with a single timer leaves none. *)
Lemma cleared_single_timer (w : World) :
  single_timer w ->
  timers (exec _clearTimeout w) = [] /\ _timeout (this (exec _clearTimeout w)) = None.
Proof.
  intros S. unfold exec. rewrite _clearTimeout_unfold. cbn [snd timers this with_timeout _timeout].
  split; [| reflexivity]. unfold single_timer in S.
  destruct (_timeout (this w)) as [id |].
  - destruct S as [ms ->]. apply disarm_single.
  - exact S.
Qed.


(** ** Properties of the operations: the theorems *)

(** X1.  [offAdvance(func)] removes the first registration of [func] and
nothing else: the other listeners keep their order, later registrations of
[func] stay, and no other field changes.  If [func] is not registered the
call changes nothing. *)
Theorem offAdvance_removes_first_registration (func : Listener) (w : World) :
  result (offAdvance func) w = Normal tt /\
  exec (offAdvance func) w =
    with_this (with_advanceListeners
                 (without_first func (_advanceListeners (this w))) (this w)) w /\
  (forall l1 l2 : list Listener,
     _advanceListeners (this w) = l1 ++ func :: l2 -> ~ In func l1 ->
     _advanceListeners (this (exec (offAdvance func) w)) = l1 ++ l2) /\
  (~ In func (_advanceListeners (this w)) -> exec (offAdvance func) w = w).
Proof.
  unfold result, exec. rewrite offAdvance_unfold. cbn [fst snd].
  split; [reflexivity |]. split; [reflexivity |]. split.
  - intros l1 l2 E Hin. cbn [this with_this _advanceListeners with_advanceListeners].
    rewrite E. apply without_first_split. exact Hin.
  - intros Hin. rewrite (without_first_absent func _ Hin).
    destruct w as [[p o ip hs it tm ls] ts nt lg]. reflexivity.
Qed.

Lemma perform_hasStarted (op : Operation) (w : World) :
  _hasStarted (this w) = true -> _hasStarted (this (perform op w)) = true.
Proof.
  intros S. destruct op as [func | func | g | c | v | | | | id]; cbn [perform].
  - exact S.
  - unfold exec. rewrite offAdvance_unfold. exact S.
  - rewrite evaluate_same. exact S.
  - rewrite giveInput_world. exact S.
  - rewrite set_intervalTime_world.
    destruct v as [| | b | n | s | r]; try exact S.
    destruct (JS.is_NaN n); [exact S |]. cbv zeta. rewrite S. apply ran_started.
  - exact S.
  - unfold exec. rewrite resume_unfold. apply ran_started.
  - unfold exec. rewrite run_unfold. apply ran_started.
  - rewrite timer_fires_world.
    destruct (existsb (fun entry => Nat.eqb (fst entry) id) (timers w)); [apply ran_started | exact S].
Qed.

(** X3.  [hasStarted] is permanent: if it is true, or if [run()] or
[resume()] is among the operations performed, it is true after the whole
sequence, whatever else the sequence does. *)
Theorem hasStarted_is_permanent (ops : list Operation) (w : World) :
  _hasStarted (this w) = true \/ In Run ops \/ In Resume ops ->
  _hasStarted (this (perform_all ops w)) = true.
Proof.
  revert w. induction ops as [| op ops IH]; intros w Hyp.
  - destruct Hyp as [S | [[] | []]]. exact S.
  - change (perform_all (op :: ops) w) with (perform_all ops (perform op w)).
    apply IH.
    destruct Hyp as [S | [[E | I] | [E | I]]].
    + left. apply perform_hasStarted. exact S.
    + left. subst op. cbn [perform]. unfold exec. rewrite run_unfold. apply ran_started.
    + right. left. exact I.
    + left. subst op. cbn [perform]. unfold exec. rewrite resume_unfold. apply ran_started.
    + right. right. exact I.
Qed.

Lemma perform_settings (op : Operation) (w : World) :
  _isPaused (this (perform op w)) =
    match op with
    | Pause => true
    | Resume => false
    | _ => _isPaused (this w)
    end /\
  match op with
  | OnAdvance _ | OffAdvance _ => True
  | _ => _advanceListeners (this (perform op w)) = _advanceListeners (this w)
  end /\
  match op with
  | SetIntervalTime _ => True
  | _ => _intervalTime (this (perform op w)) = _intervalTime (this w)
  end.
Proof.
  destruct op as [func | func | g | c | v | | | | id]; cbn [perform].
  - repeat split.
  - unfold exec. rewrite offAdvance_unfold. repeat split.
  - rewrite evaluate_same. repeat split.
  - rewrite giveInput_world. repeat split.
  - rewrite set_intervalTime_world.
    destruct v as [| | b | n | s | r]; try (repeat split; reflexivity).
    destruct (JS.is_NaN n); [repeat split; reflexivity |]. cbv zeta.
    destruct (_hasStarted (this w)); [| repeat split; reflexivity].
    match goal with |- context [ran ?w1] =>
      destruct (ran_frame w1) as (P & _ & L & _) end.
    rewrite P, L. repeat split; reflexivity.
  - repeat split.
  - unfold exec. rewrite resume_unfold. cbn [snd].
    destruct (ran_frame (with_this (with_isPaused false (this w)) w))
      as (P & I & L & _).
    rewrite P, I, L. repeat split; reflexivity.
  - unfold exec. rewrite run_unfold. cbn [snd].
    destruct (ran_frame w) as (P & I & L & _).
    rewrite P, I, L. repeat split; reflexivity.
  - rewrite timer_fires_world.
    destruct (existsb (fun entry => Nat.eqb (fst entry) id) (timers w)); [| repeat split; reflexivity].
    match goal with |- context [ran ?w1] =>
      destruct (ran_frame w1) as (P & I & L & _) end.
    rewrite P, I, L. repeat split; reflexivity.
Qed.


Lemma perform_single_timer (op : Operation) (w : World) :
  single_timer w -> single_timer (perform op w).
Proof.
  intros S. destruct op as [func | func | g | c | v | | | | id]; cbn [perform].
  - exact S.
  - unfold exec. rewrite offAdvance_unfold. exact S.
  - rewrite evaluate_same. exact S.
  - rewrite giveInput_world. exact S.
  - rewrite set_intervalTime_world.
    destruct v as [| | b | n | s | r]; try exact S.
    destruct (JS.is_NaN n); [exact S |]. cbv zeta.
    set (w0 := with_this _ w).
    assert (S0 : single_timer w0) by exact S.
    assert (S1 : single_timer (exec _clearTimeout w0)).
    { destruct (cleared_single_timer w0 S0) as [T O].
      unfold single_timer. rewrite O. exact T. }
    destruct (_hasStarted (this w)); [apply ran_single_timer |]; exact S1.
  - exact S.
  - unfold exec. rewrite resume_unfold. apply ran_single_timer. exact S.
  - unfold exec. rewrite run_unfold. apply ran_single_timer. exact S.
  - rewrite timer_fires_world.
    destruct (existsb (fun entry => Nat.eqb (fst entry) id) (timers w)) eqn:A;
      [| exact S].
    apply ran_single_timer.
    unfold single_timer in S.
    destruct (_timeout (this w)) as [id' |] eqn:T.
    + destruct S as [ms E]. rewrite E in A. cbn in A. rewrite orb_false_r in A.
      apply Nat.eqb_eq in A. subst id'.
      unfold single_timer, exec. rewrite _clearTimeout_unfold.
      cbn [snd this timers with_timeout _timeout]. rewrite T, E, disarm_single.
      reflexivity.
    + rewrite S in A. discriminate A.
Qed.

(** X5.  The executor never has two timers armed.  On a host with no
timers, a new executor, after any sequence of operations (timer firings
included), has armed exactly the timer whose handle is in [_timeout], or
none if [_timeout] is [null]: no timeout is scheduled twice and none is
left behind. *)
Theorem at_most_one_timer (ops : list Operation) (source : string)
        (initialStack : option (list JS.number)) :
  single_timer (perform_all ops (boot (new_FishExecutor source initialStack))).
Proof.
  assert (all : forall (l : list Operation) (w : World),
            single_timer w -> single_timer (perform_all l w)).
  { induction l as [| op l IH]; intros w S; [exact S |].
    change (perform_all (op :: l) w) with (perform_all l (perform op w)).
    apply IH. apply perform_single_timer. exact S. }
  apply all. reflexivity.
Qed.


(** What an operation does when the guard of [run()] is bound to reject:
the program has terminated, or the executor is paused and the operation is
not [resume()]. *)
Lemma perform_blocked (op : Operation) (w : World) :
  FishProgram.hasTerminated (_program (this w)) = true \/
  (_isPaused (this w) = true /\ op <> Resume) ->
  exists evs,
    log (perform op w) = log w ++ evs /\
    advances_in evs = 0%nat /\
    timeouts_set_in evs = 0%nat /\
    listener_calls evs = [] /\
    _output (this (perform op w)) = _output (this w) /\
    ((forall c, op <> GiveInput c) ->
     _program (this (perform op w)) = _program (this w)).
Proof.
  intros B.
  assert (B' : _isPaused (this w) = true \/
               FishProgram.hasTerminated (_program (this w)) = true)
    by (destruct B as [T | [P _]]; [right | left]; assumption).
  assert (none : exists evs : list (Event Program),
            log w = log w ++ evs /\ advances_in evs = 0%nat /\
            timeouts_set_in evs = 0%nat /\ listener_calls evs = [] /\
            _output (this w) = _output (this w) /\
            ((forall c, op <> GiveInput c) -> _program (this w) = _program (this w))).
  { exists []. rewrite app_nil_r. repeat split. }
  destruct op as [func | func | g | c | v | | | | id]; cbn [perform].
  - exact none.
  - unfold exec. rewrite offAdvance_unfold. exact none.
  - rewrite evaluate_same. exact none.
  - rewrite giveInput_world. exists [ProgramGiveInput c].
    repeat split. intros Hc. exfalso. exact (Hc c eq_refl).
  - rewrite set_intervalTime_world.
    destruct v as [| | b | n | s | r]; try exact none.
    destruct (JS.is_NaN n); [exact none |]. cbv zeta.
    exists [ClearTimeout (_timeout (this w))].
    destruct (_hasStarted (this w)); [| repeat split].
    rewrite ran_blocked by exact B'. repeat split.
  - exact none.
  - unfold exec. rewrite resume_unfold. cbn [snd].
    destruct B as [T | [_ E]]; [| exfalso; apply E; reflexivity].
    rewrite ran_blocked by (right; exact T). exact none.
  - unfold exec. rewrite run_unfold. cbn [snd].
    rewrite ran_blocked by exact B'. exact none.
  - rewrite timer_fires_world.
    destruct (existsb (fun entry => Nat.eqb (fst entry) id) (timers w));
      [| exact none].
    rewrite ran_blocked by exact B'.
    exists [ClearTimeout (_timeout (this w))]. repeat split.
Qed.

(** X6.  After the program has terminated the executor is inert: no
operation calls [advance()] or [readOutput()] again, arms a timer or calls a
listener; the output stays as it is, and only [giveInput] still reaches the
program. *)
Theorem terminated_executor_is_inert (op : Operation) (w : World) :
  FishProgram.hasTerminated (_program (this w)) = true ->
  let w' := perform op w in
  advances_in (new_events w w') = 0%nat /\
  timeouts_set_in (new_events w w') = 0%nat /\
  listener_calls (new_events w w') = [] /\
  _output (this w') = _output (this w) /\
  ((forall c, op <> GiveInput c) -> _program (this w') = _program (this w)).
Proof.
  intros T. cbv zeta.
  destruct (perform_blocked op w (or_introl T)) as (evs & L & A & S & C & O & P).
  rewrite (new_events_app w _ evs L). repeat split; assumption.
Qed.

(** X7.  While the executor is paused, only [resume()] gets it going: any
other operation ([run()], an assignment to [intervalTime], a timer firing,
...) makes no advance, arms no timer and calls no listener, and leaves the
executor paused with its output unchanged. *)
Theorem paused_executor_is_inert (op : Operation) (w : World) :
  _isPaused (this w) = true ->
  op <> Resume ->
  let w' := perform op w in
  advances_in (new_events w w') = 0%nat /\
  timeouts_set_in (new_events w w') = 0%nat /\
  listener_calls (new_events w w') = [] /\
  _output (this w') = _output (this w) /\
  _isPaused (this w') = true.
Proof.
  intros P R. cbv zeta.
  destruct (perform_blocked op w (or_intror (conj P R)))
    as (evs & L & A & S & C & O & _).
  rewrite (new_events_app w _ evs L).
  repeat split; try assumption.
  destruct (perform_settings op w) as (E & _).
  rewrite E. destruct op; try exact P; try reflexivity.
  exfalso. apply R. reflexivity.
Qed.

(** X8.  [pause()] followed by [resume()] on an executor that is not paused
is [run()].  So on a started executor that is waiting for its timeout, or
whose program has terminated, the pair changes nothing: the pending timer is
neither cancelled nor doubled. *)
Theorem pause_then_resume (w : World) :
  _isPaused (this w) = false ->
  exec resume (exec pause w) = exec run w /\
  (_hasStarted (this w) = true -> guard_rejects (this w) = true ->
   exec resume (exec pause w) = w).
Proof.
  intros P.
  assert (E : exec resume (exec pause w) = exec run w).
  { unfold exec at 1. rewrite resume_unfold. unfold exec. rewrite run_unfold.
    cbn [snd]. f_equal.
    destruct w as [[p o ip hs it tm ls] ts nt lg]. cbn in P. subst ip.
    reflexivity. }
  split; [exact E |].
  intros S G. rewrite E. unfold exec. rewrite run_unfold. cbn [snd].
  rewrite (ran_rejected w G).
  destruct w as [[p o ip hs it tm ls] ts nt lg]. cbn in S. subst hs. reflexivity.
Qed.


(** X11.  Assigning a number to [intervalTime] before the executor was
started does not start it: the only call it makes is [clearTimeout], and the
program, the output and the flag [hasStarted] are as before. *)
Theorem intervalTime_assignment_before_start (n : JS.number) (w : World) :
  JS.is_NaN n = false ->
  _hasStarted (this w) = false ->
  let w' := exec (set_intervalTime (JS.num n)) w in
  new_events w w' = [ClearTimeout (_timeout (this w))] /\
  _hasStarted (this w') = false /\
  _program (this w') = _program (this w) /\
  _output (this w') = _output (this w) /\
  _timeout (this w') = None.
Proof.
  intros N S. cbv zeta. rewrite set_intervalTime_world, N. cbv zeta. rewrite S.
  split; [apply new_events_app; reflexivity |].
  repeat split. exact S.
Qed.


Lemma drained_add (a : nat) : forall (b : nat) (p : Program),
  drained (a + b) p = String.append (drained a p) (drained b (stepped a p)).
Proof.
  induction a as [| a IH]; intros b p; [reflexivity |].
  cbn [Nat.add drained stepped].
  destruct (FishProgram.readOutput (FishProgram.advance p)) as [[o | err] p'];
    cbn [snd]; rewrite IH; [| reflexivity].
  symmetry. apply append_assoc.
Qed.

Lemma stepped_add (a : nat) : forall (b : nat) (p : Program),
  stepped (a + b) p = stepped b (stepped a p).
Proof.
  induction a as [| a IH]; intros b p; [reflexivity |].
  cbn [Nat.add stepped]. apply IH.
Qed.

(** An effect that is read off the number of advances: the log grows by
[evs], and output and program are those of that many rounds. *)
Lemma reading_refl (w : World) :
  exists evs,
    log w = log w ++ evs /\
    _output (this w)
      = String.append (_output (this w))
                      (drained (advances_in evs) (_program (this w))) /\
    _program (this w) = stepped (advances_in evs) (_program (this w)).
Proof.
  exists []. rewrite app_nil_r. cbn [advances_in filter List.length drained stepped].
  rewrite append_empty. repeat split.
Qed.

Lemma ran_reading (w : World) :
  exists evs,
    log (ran w) = log w ++ evs /\
    _output (this (ran w))
      = String.append (_output (this w))
                      (drained (advances_in evs) (_program (this w))) /\
    _program (this (ran w)) = stepped (advances_in evs) (_program (this w)).
Proof.
  destruct (guard_rejects (this w)) eqn:G.
  - rewrite (ran_rejected w G). exact (reading_refl w).
  - pose proof (ran_accepted w G) as R. cbv zeta in R.
    destruct (ran_accepted_events w G) as (_ & A & _). cbv zeta in A.
    exists (new_events w (ran w)). rewrite A.
    split.
    + rewrite R at 1. cbn [log].
      rewrite (new_events_app w (ran w) _ (f_equal log R)). reflexivity.
    + rewrite R. cbn [this _output _program with_timeout with_hasStarted].
      apply advanced_by_drained.
Qed.

(** The same, after a prefix of the log that holds no advance and a change
of the executor that keeps program and output. *)
Lemma ran_reading_after (w w1 : World) (pre : list (Event Program)) :
  log w1 = log w ++ pre ->
  advances_in pre = 0%nat ->
  _output (this w1) = _output (this w) ->
  _program (this w1) = _program (this w) ->
  exists evs,
    log (ran w1) = log w ++ evs /\
    _output (this (ran w1))
      = String.append (_output (this w))
                      (drained (advances_in evs) (_program (this w))) /\
    _program (this (ran w1)) = stepped (advances_in evs) (_program (this w)).
Proof.
  intros L A O P. destruct (ran_reading w1) as (evs & L1 & O1 & P1).
  exists (pre ++ evs). rewrite advances_in_app, A. cbn [Nat.add].
  rewrite L1, L, <- app_assoc, O1, P1, O, P. repeat split.
Qed.

Lemma perform_reading (op : Operation) (w : World) :
  (forall c, op <> GiveInput c) ->
  exists evs,
    log (perform op w) = log w ++ evs /\
    _output (this (perform op w))
      = String.append (_output (this w))
                      (drained (advances_in evs) (_program (this w))) /\
    _program (this (perform op w))
      = stepped (advances_in evs) (_program (this w)).
Proof.
  intros NG.
  destruct op as [func | func | g | c | v | | | | id]; cbn [perform].
  - exact (reading_refl w).
  - unfold exec. rewrite offAdvance_unfold. exact (reading_refl w).
  - rewrite evaluate_same. exact (reading_refl w).
  - exfalso. exact (NG c eq_refl).
  - rewrite set_intervalTime_world.
    destruct v as [| | b | n | s | r]; try exact (reading_refl w).
    destruct (JS.is_NaN n); [exact (reading_refl w) |]. cbv zeta.
    destruct (_hasStarted (this w)).
    + apply (ran_reading_after w _ [ClearTimeout (_timeout (this w))]); reflexivity.
    + exists [ClearTimeout (_timeout (this w))].
      cbn [advances_in filter is_advance List.length drained stepped].
      rewrite append_empty. repeat split.
  - exact (reading_refl w).
  - unfold exec. rewrite resume_unfold. cbn [snd].
    apply (ran_reading_after w _ []); try reflexivity.
    cbn [log with_this]. symmetry. apply app_nil_r.
  - unfold exec. rewrite run_unfold. cbn [snd]. apply ran_reading.
  - rewrite timer_fires_world.
    destruct (existsb (fun entry => Nat.eqb (fst entry) id) (timers w));
      [| exact (reading_refl w)].
    apply (ran_reading_after w _ [ClearTimeout (_timeout (this w))]); reflexivity.
Qed.

(** X13.  The schedule decides how far the program gets, never what it
outputs.  After any sequence of operations without [giveInput] ([run()],
[pause()], [resume()], assignments to [intervalTime], timer firings, ...),
if [advance()] was called [n] times in all, the program is the one left by
[n] rounds of [advance()] and [readOutput()], and the output is the output
before followed by the strings these reads returned, in order: nothing read
is dropped, repeated or reordered. *)
Theorem output_depends_only_on_advances (ops : list Operation) (w : World) :
  (forall c, ~ In (GiveInput c) ops) ->
  let w' := perform_all ops w in
  let n := advances_in (new_events w w') in
  _output (this w')
    = String.append (_output (this w)) (drained n (_program (this w))) /\
  _program (this w') = stepped n (_program (this w)).
Proof.
  intros NG. cbv zeta.
  assert (all : exists evs,
            log (perform_all ops w) = log w ++ evs /\
            _output (this (perform_all ops w))
              = String.append (_output (this w))
                              (drained (advances_in evs) (_program (this w))) /\
            _program (this (perform_all ops w))
              = stepped (advances_in evs) (_program (this w))).
  { revert w. induction ops as [| op ops IH]; intros w.
    - exact (reading_refl w).
    - change (perform_all (op :: ops) w) with (perform_all ops (perform op w)).
      destruct (perform_reading op w) as (e1 & L1 & O1 & P1).
      { intros c E. apply (NG c). left. exact E. }
      destruct (IH (fun c I => NG c (or_intror I)) (perform op w))
        as (e2 & L2 & O2 & P2).
      exists (e1 ++ e2). rewrite advances_in_app, drained_add, stepped_add.
      rewrite L2, L1, <- app_assoc, O2, P2, O1, P1, append_assoc.
      repeat split. }
  destruct all as (evs & L & O & P).
  rewrite (new_events_app w _ evs L). split; assumption.
Qed.

End Operations.

(** ** Instances of the properties of the operations *)

(** A sequence with [run()] in it leaves [hasStarted] true. *)
Lemma hasStarted_is_permanent_witness :
  (_hasStarted (this listening) = true \/
   In Run [Pause; Run; OffAdvance 7] \/ In Resume [Pause; Run; OffAdvance 7]) /\
  _hasStarted
    (this (@perform_all _ _ example_runtime [Pause; Run; OffAdvance 7] listening))
    = true.
Proof.
  assert (Hyp : _hasStarted (this listening) = true \/
                In Run [Pause; Run; OffAdvance 7] \/
                In Resume [Pause; Run; OffAdvance 7])
    by (right; left; right; left; reflexivity).
  split; [exact Hyp |].
  exact (@hasStarted_is_permanent _ _ example_runtime
           [Pause; Run; OffAdvance 7] listening Hyp).
Defined.

(** [resume()] on the halted executor does nothing to the program. *)
Lemma terminated_executor_is_inert_witness :
  FishProgram.hasTerminated (_program (this halted_unstarted)) = true /\
  advances_in
    (new_events halted_unstarted
       (@perform _ _ example_runtime Resume halted_unstarted)) = 0%nat.
Proof.
  split; [reflexivity |].
  exact (proj1 (@terminated_executor_is_inert _ _ example_runtime
                  Resume halted_unstarted eq_refl)).
Defined.

(** The timer of [paused_running] fires: no advance, still paused. *)
Lemma paused_executor_is_inert_witness :
  (_isPaused (this paused_running) = true /\ TimerFires 1 <> Resume) /\
  advances_in
    (new_events paused_running
       (@perform _ _ example_runtime (TimerFires 1) paused_running)) = 0%nat /\
  _isPaused (this (@perform _ _ example_runtime (TimerFires 1) paused_running))
    = true.
Proof.
  assert (R : TimerFires 1 <> Resume) by discriminate.
  split; [split; [reflexivity | exact R] |].
  destruct (@paused_executor_is_inert _ _ example_runtime
              (TimerFires 1) paused_running eq_refl R) as (A & _ & _ & _ & P).
  split; [exact A | exact P].
Defined.

(** [running] waits for its timeout: [pause()] then [resume()] changes
nothing. *)
Lemma pause_then_resume_witness :
  _isPaused (this running) = false /\
  exec resume (exec pause running) = running.
Proof.
  split; [reflexivity |].
  exact (proj2 (pause_then_resume running eq_refl) eq_refl eq_refl).
Defined.


(** [intervalTime = 50] on the unstarted [listening]. *)
Lemma intervalTime_assignment_before_start_witness :
  (JS.is_NaN (JS.of_Z 50) = false /\ _hasStarted (this listening) = false) /\
  _hasStarted
    (this (exec (@set_intervalTime _ _ example_runtime (JS.num (JS.of_Z 50)))
                listening)) = false.
Proof.
  split; [split; reflexivity |].
  exact (proj1 (proj2 (@intervalTime_assignment_before_start _ _ example_runtime
                         (JS.of_Z 50) listening eq_refl eq_refl))).
Defined.


(** A run, a pause, the timer firing, a resume: two advances in all. *)
Lemma output_depends_only_on_advances_witness :
  (forall c, ~ In (GiveInput c) [Run; Pause; TimerFires 1; Resume]) /\
  _program
    (this (@perform_all _ _ example_runtime
             [Run; Pause; TimerFires 1; Resume] listening))
    = stepped 2 (_program (this listening)).
Proof.
  assert (NG : forall c, ~ In (GiveInput c) [Run; Pause; TimerFires 1; Resume]).
  { intros c [E | [E | [E | [E | []]]]]; discriminate E. }
  split; [exact NG |].
  exact (proj2 (@output_depends_only_on_advances _ _ example_runtime
                  [Run; Pause; TimerFires 1; Resume] listening NG)).
Defined.

(** ** Properties of [run()] with its listeners as they come *)

Section LiveProperties.

Context {Program Client : Type} `{FishProgram.API Program} `{JS.Runtime}.

Variable react :
  Listener -> Client -> World Program -> Completion unit * (Client * World Program).

#[local] Abbreviation Scene := (Scene Program Client).

Lemma call_live_invoked (func : Listener) (s : Scene) :
  invoked (snd (call_live react func s))
  = invoked s ++ [(func, this (stage s))].
Proof.
  unfold call_live.
  destruct (react func (client s) _) as [r [c w']]. reflexivity.
Qed.

Lemma call_live_normal (func : Listener) (s : Scene) (c' : Client)
      (w' : World Program) :
  react func (client s) (logged (ListenerCall func (this (stage s))) (stage s))
    = (Normal tt, (c', w')) ->
  call_live react func s =
  (Normal tt,
   {| stage := w'; client := c';
      invoked := invoked s ++ [(func, this (stage s))] |}).
Proof. intros R. unfold call_live. rewrite R. reflexivity. Qed.

(** One traversal calls at most one listener per index. *)
Lemma forEach_from_invoked (len : nat) : forall (k : nat) (s : Scene),
  exists calls,
    invoked (snd (forEach_from len k (call_live react) s)) = invoked s ++ calls /\
    (List.length calls <= len)%nat.
Proof.
  induction len as [| len IH]; intros k s.
  - exists []. cbn. rewrite app_nil_r. split; [reflexivity | lia].
  - cbn [forEach_from].
    destruct (nth_error (_advanceListeners (this (stage s))) k) as [func |].
    + unfold and_then. pose proof (call_live_invoked func s) as C.
      destruct (call_live react func s) as [[u | err] s1]; cbn [snd] in *.
      * destruct (IH (S k) s1) as (calls & E & B).
        exists ((func, this (stage s)) :: calls).
        rewrite E, C, <- app_assoc. split; [reflexivity | cbn; lia].
      * exists [(func, this (stage s))]. split; [exact C | cbn; lia].
    + destruct (IH (S k) s) as (calls & E & B).
      exists calls. split; [exact E | lia].
Qed.

(** The listener at the first index is called first, with the executor as
it is when the traversal starts. *)
Lemma forEach_from_first (len : nat) (k : nat) (s : Scene) (func : Listener) :
  nth_error (_advanceListeners (this (stage s))) k = Some func ->
  exists calls,
    invoked (snd (forEach_from (S len) k (call_live react) s))
    = invoked s ++ (func, this (stage s)) :: calls.
Proof.
  intros N. cbn [forEach_from]. rewrite N.
  unfold and_then. pose proof (call_live_invoked func s) as C.
  destruct (call_live react func s) as [[u | err] s1]; cbn [snd] in *.
  - destruct (forEach_from_invoked len (S k) s1) as (calls & E & _).
    exists calls. rewrite E, C, <- app_assoc. reflexivity.
  - exists []. exact C.
Qed.

(** If every listener returns normally, so does the traversal. *)
Lemma forEach_from_returns (len : nat) : forall (k : nat) (s : Scene),
  (forall func c w, fst (react func c w) = Normal tt) ->
  fst (forEach_from len k (call_live react) s) = Normal tt.
Proof.
  induction len as [| len IH]; intros k s R; [reflexivity |].
  cbn [forEach_from].
  destruct (nth_error (_advanceListeners (this (stage s))) k) as [func |].
  - unfold and_then.
    assert (C : fst (call_live react func s) = Normal tt).
    { unfold call_live. pose proof (R func (client s)
        (logged (ListenerCall func (this (stage s))) (stage s))) as Rf.
      destruct (react func (client s) _) as [r [c w']]. exact Rf. }
    destruct (call_live react func s) as [[[] | err] s1]; cbn [fst] in C.
    + apply IH. exact R.
    + discriminate C.
  - apply IH. exact R.
Qed.

Lemma skipn_nth_error {A : Type} (l : list A) : forall (k : nat) (a : A),
  nth_error l k = Some a -> skipn k l = a :: skipn (S k) l.
Proof.
  induction l as [| x l IH]; intros k a N.
  - destruct k; discriminate N.
  - destruct k as [| k].
    + cbn in N. injection N as ->. reflexivity.
    + cbn [nth_error] in N. cbn [skipn]. apply IH. exact N.
Qed.


(** Quiet listeners: the traversal only writes the log and the record. *)
Lemma forEach_from_quiet (len : nat) : forall (k : nat) (s : Scene),
  quiet react ->
  (k + len = List.length (_advanceListeners (this (stage s))))%nat ->
  let rest := skipn k (_advanceListeners (this (stage s))) in
  fst (forEach_from len k (call_live react) s) = Normal tt /\
  stage (snd (forEach_from len k (call_live react) s)) =
    {| this := this (stage s); timers := timers (stage s);
       next_timer := next_timer (stage s);
       log := log (stage s)
                ++ map (fun func => ListenerCall func (this (stage s))) rest |} /\
  invoked (snd (forEach_from len k (call_live react) s)) =
    invoked s ++ map (fun func => (func, this (stage s))) rest.
Proof.
  induction len as [| len IH]; intros k s Q B; cbv zeta.
  - rewrite skipn_all2 by lia. cbn [forEach_from done fst snd map].
    rewrite !app_nil_r. destruct s as [[e ts nt lg] c inv]. repeat split.
  - cbn [forEach_from].
    destruct (nth_error (_advanceListeners (this (stage s))) k) as [func |] eqn:N.
    2:{ apply nth_error_None in N. lia. }
    unfold and_then.
    destruct (Q func (client s)
                (logged (ListenerCall func (this (stage s))) (stage s)))
      as (c' & R).
    rewrite (call_live_normal func s c' _ R).
    set (s1 := {| stage := logged (ListenerCall func (this (stage s))) (stage s);
                  client := c';
                  invoked := invoked s ++ [(func, this (stage s))] |}).
    destruct (IH (S k) s1 Q) as (Rn & St & I).
    { cbn [stage s1 logged this]. lia. }
    cbv zeta in St, I. cbn [stage s1 logged this timers next_timer log invoked] in St, I.
    rewrite (skipn_nth_error _ k func N). cbn [map].
    split; [exact Rn |]. split.
    + rewrite St, <- app_assoc. reflexivity.
    + rewrite I, <- app_assoc. reflexivity.
Qed.

(** [run_live], read off: rejected at the guard, or the listeners called
on the scheduled world. *)
Lemma run_live_unfold (s : Scene) :
  run_live react s =
  if guard_rejects (this (stage s))
  then (Normal tt,
        with_stage (with_this (with_hasStarted true (this (stage s))) (stage s)) s)
  else forEach_live (call_live react) (with_stage (scheduled (stage s)) s).
Proof.
  unfold run_live, and_then, on_stage. cbn [assign with_stage stage].
  rewrite run_guard_unfold. cbn [with_stage stage this with_this].
  rewrite guard_rejects_started.
  destruct (guard_rejects (this (stage s))); [reflexivity |].
  unfold field. cbn [stage with_stage this with_this].
  unfold scheduled. cbv zeta.
  destruct (JS.strict_equals (JS.num (_intervalTime (with_hasStarted true (this (stage s)))))
                             (JS.num (JS.of_Z 0))); cbv iota.
  - rewrite _runAtFullSpeed_unfold. cbv zeta. reflexivity.
  - rewrite _runAtInterval_unfold. reflexivity.
Qed.


(** The scheduled world: what [run()] has logged when it turns to the
listeners. *)
Lemma scheduled_events (w : World Program) :
  let full_speed :=
    JS.strict_equals (JS.num (_intervalTime (this w))) (JS.num (JS.of_Z 0)) in
  let n := if full_speed then burst full_speed_fuel 0%Z (this w) else 1%nat in
  let delay := if full_speed then JS.of_Z 0 else _intervalTime (this w) in
  new_events w (scheduled w)
    = advance_events n ++ [SetTimeout (next_timer w) delay] /\
  advances_in (new_events w (scheduled w)) = n /\
  this (scheduled w)
    = with_timeout (Some (next_timer w))
        (with_hasStarted true (advanced_by n (this w))) /\
  timers (scheduled w) = timers w ++ [(next_timer w, delay)].
Proof.
  cbv zeta.
  assert (L : log (scheduled w) = log w
                ++ advance_events
                     (if JS.strict_equals (JS.num (_intervalTime (this w)))
                                          (JS.num (JS.of_Z 0))
                      then burst full_speed_fuel 0%Z (this w) else 1%nat)
                ++ [SetTimeout (next_timer w)
                      (if JS.strict_equals (JS.num (_intervalTime (this w)))
                                           (JS.num (JS.of_Z 0))
                       then JS.of_Z 0 else _intervalTime (this w))]).
  { unfold scheduled. cbv zeta. cbn [log].
    change (_intervalTime (with_hasStarted true (this w)))
      with (_intervalTime (this w)).
    rewrite burst_with_hasStarted. reflexivity. }
  rewrite (new_events_app w _ _ L).
  split; [reflexivity |]. split; [| split].
  - rewrite advances_in_app, advances_in_advance_events. cbn. lia.
  - unfold scheduled. cbv zeta. cbn [this].
    change (_intervalTime (with_hasStarted true (this w)))
      with (_intervalTime (this w)).
    rewrite burst_with_hasStarted, advanced_by_with_hasStarted. reflexivity.
  - unfold scheduled. cbv zeta. cbn [timers].
    change (_intervalTime (with_hasStarted true (this w)))
      with (_intervalTime (this w)). reflexivity.
Qed.

Lemma scheduled_listeners (w : World Program) :
  _advanceListeners (this (scheduled w)) = _advanceListeners (this w).
Proof.
  destruct (scheduled_events w) as (_ & _ & T & _). cbv zeta in T. rewrite T.
  cbn [_advanceListeners with_timeout with_hasStarted].
  exact (proj2 (proj2 (proj2 (proj2 (advanced_by_frame _ _))))).
Qed.

Lemma ran_scheduled (w : World Program) :
  guard_rejects (this w) = false ->
  ran w =
  {| this := this (scheduled w); timers := timers (scheduled w);
     next_timer := next_timer (scheduled w);
     log := log (scheduled w)
              ++ map (fun func => ListenerCall func (this (scheduled w)))
                     (_advanceListeners (this (scheduled w))) |}.
Proof.
  intros G. unfold ran. cbv zeta. rewrite guard_rejects_started, G.
  unfold scheduled. cbv zeta. cbn [this timers next_timer log].
  rewrite <- !app_assoc. reflexivity.
Qed.

(** With quiet listeners [run_live] is [run]. *)
Lemma run_live_quiet (s : Scene) :
  quiet react ->
  fst (run_live react s) = Normal tt /\
  stage (snd (run_live react s)) = exec run (stage s) /\
  invoked (snd (run_live react s))
    = invoked s ++ listener_calls (new_events (stage s) (exec run (stage s))).
Proof.
  intros Q. unfold exec. rewrite run_unfold. cbn [snd]. rewrite run_live_unfold.
  destruct (guard_rejects (this (stage s))) eqn:G.
  - rewrite (ran_rejected _ G). cbn [fst snd stage with_stage invoked].
    rewrite (new_events_app (stage s) _ [])
      by (cbn [log with_this]; symmetry; apply app_nil_r).
    rewrite app_nil_r. repeat split.
  - unfold forEach_live. cbn [stage with_stage].
    destruct (forEach_from_quiet
                (List.length (_advanceListeners (this (scheduled (stage s)))))
                0 (with_stage (scheduled (stage s)) s) Q eq_refl)
      as (R & St & I).
    cbv zeta in St, I. cbn [skipn stage with_stage invoked] in St, I.
    split; [exact R |]. split.
    + rewrite St. symmetry. apply ran_scheduled. exact G.
    + rewrite I. f_equal.
      pose proof (ran_accepted (stage s) G) as Ra. cbv zeta in Ra.
      rewrite (new_events_app (stage s) (ran (stage s)) _ (f_equal log Ra)).
      rewrite !listener_calls_app, listener_calls_advance_events, listener_calls_map.
      cbn [listener_calls flat_map app].
      rewrite scheduled_listeners.
      destruct (scheduled_events (stage s)) as (_ & _ & T & _). cbv zeta in T.
      rewrite T. reflexivity.
Qed.

(** While a timeout is pending, only its firing and an assignment to
[intervalTime] advance the program. *)
Lemma perform_waiting (op : Operation) (v : World Program) :
  _timeout (this v) <> None ->
  (forall id, op <> TimerFires id) ->
  (forall x, op <> SetIntervalTime x) ->
  advances_in (new_events v (perform op v)) = 0%nat.
Proof.
  intros T NT NS.
  assert (G : forall e : t Program, _timeout e = _timeout (this v) ->
                guard_rejects e = true).
  { intros e E. unfold guard_rejects. rewrite E.
    destruct (_timeout (this v)); [apply orb_true_r | contradiction]. }
  assert (none : forall w' : World Program, log w' = log v ->
                   advances_in (new_events v w') = 0%nat).
  { intros w' L. rewrite (new_events_app v w' []); [reflexivity |].
    rewrite L. symmetry. apply app_nil_r. }
  destruct op as [func | func | g | c | x | | | | id]; cbn [perform].
  - apply none. reflexivity.
  - unfold exec. rewrite offAdvance_unfold. apply none. reflexivity.
  - rewrite evaluate_same. apply none. reflexivity.
  - rewrite giveInput_world.
    rewrite (new_events_app v _ [ProgramGiveInput c]); reflexivity.
  - exfalso. exact (NS x eq_refl).
  - apply none. reflexivity.
  - unfold exec. rewrite resume_unfold. cbn [snd].
    rewrite ran_rejected by (apply G; reflexivity). apply none. reflexivity.
  - unfold exec. rewrite run_unfold. cbn [snd].
    rewrite ran_rejected by (apply G; reflexivity). apply none. reflexivity.
  - exfalso. exact (NT id eq_refl).
Qed.



(** C3, as amended.  Every [run()] makes a bounded number of calls of
[advance()] of its own:
- none when the entry guard rejects the call: it returns at once, having
  set only [_hasStarted];
- otherwise exactly one when the interval time is greater than zero, and at
  most [_FULL_SPEED_ADVANCES], that is 10000, when the interval time is zero
  (the program had not terminated before any of them, and if there are
  fewer than 10000 the program has terminated); it then arms exactly one
  timer, with the interval time as its delay (the literal 0 at full speed),
  keeps the handle in [_timeout], and calls the listeners.
It returns normally if the listeners do; with listeners that leave the
executor alone the advances above are all the advances of the call.  While
a timeout is pending [run()] and [resume()] are rejected: the only
operations that advance the program are the firing of the timer and an
assignment to [intervalTime]. *)
Theorem run_live_bounded (s : Scene) :
  let w := stage s in
  let w1 := scheduled w in
  let n := advances_in (new_events w w1) in
  let zero :=
    JS.strict_equals (JS.num (_intervalTime (this w))) (JS.num (JS.of_Z 0)) in
  (guard_rejects (this w) = true ->
   run_live react s
     = (Normal tt, with_stage (with_this (with_hasStarted true (this w)) w) s) /\
   new_events w (stage (snd (run_live react s))) = []) /\
  (guard_rejects (this w) = false ->
   run_live react s = forEach_live (call_live react) (with_stage w1 s) /\
   (exists ms, new_events w w1 = advance_events n ++ [SetTimeout (next_timer w) ms]) /\
   (above_zero (_intervalTime (this w)) -> n = 1%nat) /\
   (zero = true ->
    (Z.of_nat n <= _FULL_SPEED_ADVANCES)%Z /\
    (forall k : nat, (k < n)%nat ->
       FishProgram.hasTerminated (_program (advanced_by k (this w))) = false) /\
    ((Z.of_nat n < _FULL_SPEED_ADVANCES)%Z ->
       FishProgram.hasTerminated (_program (this w1)) = true)) /\
   _program (this w1) = _program (advanced_by n (this w)) /\
   _timeout (this w1) = Some (next_timer w) /\
   timers w1 =
     timers w ++ [(next_timer w, if zero then JS.of_Z 0 else _intervalTime (this w))] /\
   guard_rejects (this w1) = true) /\
  ((forall func c v, fst (react func c v) = Normal tt) ->
   fst (run_live react s) = Normal tt) /\
  (quiet react ->
   fst (run_live react s) = Normal tt /\
   stage (snd (run_live react s)) = exec run w /\
   advances_in (new_events w (exec run w))
     = if guard_rejects (this w) then 0%nat else n) /\
  (forall (v : World Program) (op : Operation),
     _timeout (this v) <> None ->
     advances_in (new_events v (perform op v)) <> 0%nat ->
     (exists id, op = TimerFires id) \/ (exists x, op = SetIntervalTime x)).
Proof.
  cbv zeta.
  destruct (scheduled_events (stage s)) as (E & A & T & Ti). cbv zeta in E, A, T, Ti.
  split; [| split; [| split; [| split]]].
  - intros G. rewrite run_live_unfold, G. split; [reflexivity |].
    cbn [snd stage with_stage]. apply new_events_app.
    cbn [log with_this]. symmetry. apply app_nil_r.
  - intros G. rewrite run_live_unfold, G. rewrite A.
    split; [reflexivity |]. split; [eexists; exact E |].
    rewrite T, Ti. cbn [_program _timeout with_timeout with_hasStarted].
    split; [| split; [| split; [| split; [| split]]]].
    + intros P. rewrite (above_zero_not_zero _ P). reflexivity.
    + intros Z0. rewrite Z0. split; [| split].
      * pose proof (burst_bound full_speed_fuel 0%Z (this (stage s))) as B.
        unfold _FULL_SPEED_ADVANCES in *. lia.
      * intros k Hk. apply (burst_running full_speed_fuel 0%Z). exact Hk.
      * intros Hlt. apply burst_stops; [| lia]. unfold full_speed_fuel. lia.
    + reflexivity.
    + reflexivity.
    + reflexivity.
    + unfold guard_rejects. cbn [_timeout with_timeout]. apply orb_true_r.
  - intros R. rewrite run_live_unfold.
    destruct (guard_rejects (this (stage s))); [reflexivity |].
    unfold forEach_live. apply forEach_from_returns. exact R.
  - intros Q. destruct (run_live_quiet s Q) as (R & St & _).
    split; [exact R |]. split; [exact St |].
    unfold exec. rewrite run_unfold. cbn [snd].
    destruct (guard_rejects (this (stage s))) eqn:G.
    + rewrite (ran_rejected _ G). rewrite (new_events_app (stage s) _ []);
        [reflexivity | cbn [log with_this]; symmetry; apply app_nil_r].
    + destruct (ran_accepted_events (stage s) G) as (_ & An & _).
      cbv zeta in An. rewrite An, A. reflexivity.
  - intros v op Tp Adv.
    destruct op as [func | func | g | c | x | | | | id];
      try (exfalso; apply Adv; apply perform_waiting;
           [exact Tp | intros i; discriminate | intros i; discriminate]).
    + right. exists x. reflexivity.
    + left. exists id. reflexivity.
Qed.


(** X10.  A [run()] that passes the guard has made all its calls of
[advance()] and its one call of [setTimeout] when it turns to the listeners:
the first listener is given the executor with the whole burst done and the
new timeout pending.  Whatever the listeners do, the run calls at most one
listener per entry of the list as it was then: once per [run()], not once
per advance. *)
Theorem listeners_are_called_after_the_burst (s : Scene) :
  guard_rejects (this (stage s)) = false ->
  let w := stage s in
  let w1 := scheduled w in
  let s' := snd (run_live react s) in
  let n := advances_in (new_events w w1) in
  (exists ms, log w1 = log w ++ advance_events n ++ [SetTimeout (next_timer w) ms]) /\
  _timeout (this w1) = Some (next_timer w) /\
  (exists calls,
     invoked s' = invoked s ++ calls /\
     (List.length calls <= List.length (_advanceListeners (this w)))%nat) /\
  (forall func rest,
     _advanceListeners (this w) = func :: rest ->
     exists calls, invoked s' = invoked s ++ (func, this w1) :: calls).
Proof.
  intros G. cbv zeta. rewrite run_live_unfold, G.
  destruct (scheduled_events (stage s)) as (E & A & T & _). cbv zeta in E, A, T.
  split; [| split; [| split]].
  - eexists. rewrite A.
    unfold scheduled. cbv zeta. cbn [log].
    change (_intervalTime (with_hasStarted true (this (stage s))))
      with (_intervalTime (this (stage s))).
    rewrite burst_with_hasStarted. reflexivity.
  - rewrite T. reflexivity.
  - unfold forEach_live. cbn [stage with_stage]. rewrite scheduled_listeners.
    exact (forEach_from_invoked _ 0 (with_stage (scheduled (stage s)) s)).
  - intros func rest L. unfold forEach_live. cbn [stage with_stage].
    rewrite scheduled_listeners, L. cbn [List.length].
    apply (forEach_from_first (List.length rest) 0
             (with_stage (scheduled (stage s)) s) func).
    cbn [stage with_stage]. rewrite scheduled_listeners, L. reflexivity.
Qed.

(** Appending [a] to [l] gives [a :: l] exactly when [l] holds nothing but
[a]. *)
Lemma append_is_cons (a : Listener) (l : list Listener) :
  l ++ [a] = a :: l <-> Forall (eq a) l.
Proof.
  induction l as [| x l IH].
  - split; [constructor | reflexivity].
  - split.
    + intros E. cbn [app] in E. injection E as -> E. constructor; [reflexivity |].
      apply IH. exact E.
    + intros F. inversion F as [| y l' Hx Hl]; subst. cbn [app]. f_equal.
      apply IH. exact Hl.
Qed.

(** X2.  When [func] is already registered, [onAdvance(func)] followed by
[offAdvance(func)] removes its first registration and keeps the new one at
the end: the list becomes the old list without its first [func], followed
by [func].  This is the old list only when every entry after the first
registration of [func] is [func] itself (in particular when [func] was
registered last); otherwise the order has changed. *)
Theorem onAdvance_offAdvance_when_registered (func : Listener) (w : World Program) :
  In func (_advanceListeners (this w)) ->
  let after :=
    _advanceListeners (this (exec (offAdvance func) (exec (onAdvance func) w))) in
  after = without_first func (_advanceListeners (this w)) ++ [func] /\
  (forall l1 l2,
     _advanceListeners (this w) = l1 ++ func :: l2 -> ~ In func l1 ->
     after = l1 ++ l2 ++ [func] /\
     (after = _advanceListeners (this w) <-> Forall (eq func) l2)).
Proof.
  intros Hin. cbv zeta.
  assert (E : _advanceListeners
                (this (exec (offAdvance func) (exec (onAdvance func) w)))
              = without_first func (_advanceListeners (this w) ++ [func])).
  { unfold exec at 1. rewrite offAdvance_unfold. reflexivity. }
  rewrite E.
  destruct (first_occurrence func (_advanceListeners (this w)))
    as [Hout | (l1 & l2 & El & Hl1)]; [contradiction |].
  split.
  - rewrite El, <- app_assoc. cbn [app].
    rewrite !(without_first_split func l1 _ Hl1), app_assoc. reflexivity.
  - intros k1 k2 Ek Hk1. rewrite Ek, <- app_assoc. cbn [app].
    rewrite (without_first_split func k1 _ Hk1).
    split; [reflexivity |].
    split.
    + intros R. apply app_inv_head in R. apply append_is_cons. exact R.
    + intros F. f_equal. apply append_is_cons. exact F.
Qed.

End LiveProperties.

(** ** Counterexamples and instances, with the listeners as they come *)

(** Counterexample to C3 as stated.  A paused executor with the interval
at 100 ms: [run()] returns without a call of [advance()], not after exactly
one.  The executor [running], whose timeout [1] is pending: the assignment
[intervalTime = 50] advances the program at once and replaces the timer,
which never fires, so progress does not come only through the scheduled
timeout.  A listener that throws: [run()] does not return, it throws.  A
listener that assigns [intervalTime]: during the one call of [run()], with
the interval above zero before and after, the program is advanced twice,
once by the run itself and once from inside the listener. *)
Lemma run_bounded_counterexample :
  (above_zero (_intervalTime (this paused_fresh)) /\
   fst (run_live (@idle _ unit) (scene paused_fresh tt)) = Normal tt /\
   advances_in
     (new_events paused_fresh
        (stage (snd (run_live (@idle _ unit) (scene paused_fresh tt))))) = 0%nat) /\
  (_timeout (this running) = Some 1 /\
   advances_in
     (new_events running
        (@perform _ _ example_runtime
           (SetIntervalTime (JS.num (JS.of_Z 50))) running)) = 1%nat /\
   timers (@perform _ _ example_runtime
             (SetIntervalTime (JS.num (JS.of_Z 50))) running)
     = [(2, JS.of_Z 50)]) /\
  (guard_rejects (this (stage (two_listeners tt))) = false /\
   fst (run_live bad_input_7 (two_listeners tt)) = Throw InvalidInputError) /\
  (above_zero (_intervalTime (this (stage (two_listeners false)))) /\
   fst (run_live speeding_7 (two_listeners false)) = Normal tt /\
   above_zero
     (_intervalTime (this (stage (snd (run_live speeding_7 (two_listeners false)))))) /\
   advances_in
     (new_events (stage (two_listeners false))
        (stage (snd (run_live speeding_7 (two_listeners false))))) = 2%nat).
Proof. vm_compute. repeat split. Qed.

(** The first [run()] of the executor with two idle listeners: one
advance, then the timer [1]; it returns, and it is what [run] computes.  At
full speed the program ["12;"] is advanced three times and has
terminated. *)
Lemma run_live_bounded_witness :
  (guard_rejects (this (stage (two_listeners tt))) = false /\
   above_zero (_intervalTime (this (stage (two_listeners tt)))) /\
   advances_in
     (new_events (stage (two_listeners tt))
                 (scheduled (stage (two_listeners tt)))) = 1%nat /\
   _timeout (this (scheduled (stage (two_listeners tt)))) = Some 1) /\
  (quiet (@idle SpecProgram.t unit) /\
   fst (run_live (@idle _ unit) (two_listeners tt)) = Normal tt /\
   stage (snd (run_live (@idle _ unit) (two_listeners tt)))
     = exec run (stage (two_listeners tt))) /\
  (guard_rejects (this full_speed_fresh) = false /\
   JS.strict_equals (JS.num (_intervalTime (this full_speed_fresh)))
                    (JS.num (JS.of_Z 0)) = true /\
   advances_in (new_events full_speed_fresh (scheduled full_speed_fresh)) = 3%nat /\
   (Z.of_nat (advances_in (new_events full_speed_fresh (scheduled full_speed_fresh)))
    <= _FULL_SPEED_ADVANCES)%Z /\
   FishProgram.hasTerminated (_program (this (scheduled full_speed_fresh))) = true).
Proof.
  split; [| split].
  - destruct (@run_live_bounded _ _ _ example_runtime (@idle _ unit)
                (two_listeners tt)) as (_ & Hpass & _).
    split; [reflexivity |]. split; [reflexivity |].
    destruct (Hpass eq_refl) as (_ & _ & Hone & _ & _ & Htimeout & _).
    split; [apply Hone; reflexivity | exact Htimeout].
  - destruct (@run_live_bounded _ _ _ example_runtime (@idle _ unit)
                (two_listeners tt)) as (_ & _ & _ & Hquiet & _).
    assert (Q : quiet (@idle SpecProgram.t unit)).
    { intros func c w. exists c. reflexivity. }
    split; [exact Q |].
    destruct (Hquiet Q) as (R & St & _). split; [exact R | exact St].
  - destruct (@run_live_bounded _ _ _ example_runtime (@idle _ unit)
                (scene full_speed_fresh tt)) as (_ & Hpass & _).
    split; [reflexivity |]. split; [reflexivity |].
    split; [vm_compute; reflexivity |].
    destruct (Hpass eq_refl) as (_ & _ & _ & Hzero & _).
    destruct (Hzero eq_refl) as (Hle & _ & Hstop).
    split; [exact Hle |].
    apply Hstop. vm_compute. reflexivity.
Defined.



(** With the self-unregistering listener the run still makes at most two
calls, the first one with the timer [1] pending. *)
Lemma listeners_are_called_after_the_burst_witness :
  guard_rejects (this (stage (two_listeners tt))) = false /\
  _timeout (this (scheduled (stage (two_listeners tt)))) = Some 1 /\
  exists calls,
    invoked (snd (run_live one_shot_7 (two_listeners tt))) = calls /\
    (List.length calls <= 2)%nat.
Proof.
  assert (G : guard_rejects (this (stage (two_listeners tt))) = false)
    by reflexivity.
  split; [exact G |].
  destruct (listeners_are_called_after_the_burst one_shot_7 (two_listeners tt) G)
    as (_ & T & (calls & I & B) & _).
  split; [exact T |]. exists calls. split; [exact I | exact B].
Defined.

(** In [listening] the list [7; 9] becomes [9; 7] for [func = 7]. *)
Lemma onAdvance_offAdvance_when_registered_witness :
  In 7 (_advanceListeners (this listening)) /\
  _advanceListeners (this (exec (offAdvance 7) (exec (onAdvance 7) listening)))
    = [9; 7].
Proof.
  assert (Hin : In 7 (_advanceListeners (this listening))) by (left; reflexivity).
  split; [exact Hin |].
  exact (proj1 (onAdvance_offAdvance_when_registered 7 listening Hin)).
Defined.

End FishExecutor.
